(** * Monopoly service: the request handlers of [monopolyService.ts]
    over a model of the relational store and of the pg-promise client.

    Three layers, as in the service:
    - the store (tables [Player], [Game], [PlayerGame]) and the meaning of
      the ten SQL statements the source issues;
    - the pg-promise client: the result methods [none], [one], [oneOrNone],
      [manyOrNone] and the transaction block [tx], over any statement driver;
    - the Express handlers, written over any [Database], with the promise
      chains [.then(...).catch(...)] of the source. *)

From Stdlib Require Import ZArith List String Ascii Bool Lia Permutation Sorted.
Import ListNotations.
Local Open Scope string_scope.
Local Open Scope Z_scope.
Local Open Scope list_scope.
Set Warnings "-register-all".

(** ** JavaScript values and errors *)

Inductive JsValue : Type :=
| JUndefined
| JNull
| JBool (b : bool)
| JNumber (n : Z)
| JString (s : string)
| JArray (items : list JsValue)
| JObject (props : list (string * JsValue)).

(** [data == null]: loose equality with null holds of null and undefined only. *)
Definition loose_eq_null (data : JsValue) : bool :=
  match data with
  | JUndefined | JNull => true
  | _ => false
  end.

Record Error : Type := mkError { message : string; stack : string }.

(** ** Data model *)

(** Modelled from the spec: the schema (the SQL file and [player.ts] are not
    part of the sources).  Player: identifier, name, email; Game: identifier;
    PlayerGame: player identifier, game identifier, score. *)
Record Player : Type := mkPlayer
  { player_id : Z; player_name : string; player_email : string }.

Record Game : Type := mkGame { game_id : Z }.

Record PlayerGame : Type := mkPlayerGame
  { pg_gameID : Z; pg_playerID : Z; pg_score : Z }.

(** [player_seq] is the last value handed out by the sequence behind
    [Player.id]. *)
Record Store : Type := mkStore
  { players : list Player;
    games : list Game;
    playerGames : list PlayerGame;
    player_seq : Z }.

(** [PlayerInput], the request body of PUT and POST. *)
Record PlayerInput : Type := mkPlayerInput { email : string; name : string }.

(** [request.params]: the path parameter is the raw text of the URL segment. *)
Record Params : Type := mkParams { id : string }.

Record Request : Type := mkRequest { params : Params; body : PlayerInput }.

(** ** The SQL statements of the source, with their parameter values *)

Inductive Sql : Type :=
| SelectPlayers
    (* SELECT * FROM Player *)
| SelectPlayerById (p : Params)
    (* SELECT * FROM Player WHERE id=${id} *)
| UpdatePlayerById (p : Params) (b : PlayerInput)
    (* UPDATE Player SET email=${body.email}, name=${body.name}
       WHERE id=${params.id} RETURNING id *)
| InsertPlayer (b : PlayerInput)
    (* INSERT INTO Player(email, name) VALUES (${email}, ${name}) RETURNING id *)
| DeletePlayerGameByPlayer (p : Params)
    (* DELETE FROM PlayerGame WHERE playerID=${id} *)
| DeletePlayerById (p : Params)
    (* DELETE FROM Player WHERE id=${id} RETURNING id *)
| SelectGames
    (* SELECT * FROM Game ORDER BY id *)
| SelectGamePlayers (gid : string)
    (* SELECT Player.id, Player.name, Player.email, PlayerGame.score
       FROM PlayerGame JOIN Player ON Player.id = PlayerGame.playerID
       WHERE PlayerGame.gameID = $1 ORDER BY PlayerGame.playerID *)
| DeletePlayerGameByGame (p : Params)
    (* DELETE FROM PlayerGame WHERE gameID=${id} *)
| DeleteGameById (p : Params)
    (* DELETE FROM Game WHERE id=${id} RETURNING id *).

Inductive QueryResult : Type :=
| Rows (rows : list JsValue)
| Failed (e : Error).

(** ** The store's side: what each statement does *)

(** What the service cannot see of the store: how it reads the text of a
    path parameter as an integer ([None]: a type error), and whether the
    schema declares the foreign keys of PlayerGame. *)
Record Engine : Type := mkEngine
  { int4in : string -> option Z;
    enforce_fk : bool }.

Definition invalid_text : Error :=
  mkError "invalid input syntax for type integer" "error".
Definition unique_violation : Error :=
  mkError "duplicate key value violates unique constraint" "error".
Definition foreign_key_violation : Error :=
  mkError "update or delete violates foreign key constraint" "error".
Definition sequence_exhausted : Error :=
  mkError "nextval: reached maximum value of sequence" "error".

(** The largest value of the store's integer type. *)
Definition int4_max : Z := 2147483647.

Definition player_row (p : Player) : JsValue :=
  JObject [("id", JNumber (player_id p));
           ("name", JString (player_name p));
           ("email", JString (player_email p))].

Definition game_row (g : Game) : JsValue :=
  JObject [("id", JNumber (game_id g))].

Definition id_row (i : Z) : JsValue := JObject [("id", JNumber i)].

Definition score_row (x : PlayerGame * Player) : JsValue :=
  JObject [("id", JNumber (player_id (snd x)));
           ("name", JString (player_name (snd x)));
           ("email", JString (player_email (snd x)));
           ("score", JNumber (pg_score (fst x)))].

(** ORDER BY: a stable sort on an integer key. *)
Fixpoint insert_by {A : Type} (key : A -> Z) (x : A) (l : list A) : list A :=
  match l with
  | [] => [x]
  | y :: l' => if key x <? key y then x :: l else y :: insert_by key x l'
  end.

Fixpoint sort_by {A : Type} (key : A -> Z) (l : list A) : list A :=
  match l with
  | [] => []
  | x :: l' => insert_by key x (sort_by key l')
  end.

(** In ascending order of the key. *)
Definition ascending {A : Type} (key : A -> Z) : list A -> Prop :=
  Sorted (fun x y => key x <= key y).

Definition has_player_id (i : Z) (p : Player) : bool := player_id p =? i.
Definition has_game_id (i : Z) (g : Game) : bool := game_id g =? i.
Definition of_player (i : Z) (pg : PlayerGame) : bool := pg_playerID pg =? i.
Definition of_game (i : Z) (pg : PlayerGame) : bool := pg_gameID pg =? i.

Definition keep {A : Type} (f : A -> bool) : list A -> list A := filter f.
Definition drop {A : Type} (f : A -> bool) : list A -> list A :=
  filter (fun x => negb (f x)).

(** PlayerGame JOIN Player ON Player.id = PlayerGame.playerID
    WHERE PlayerGame.gameID = g *)
Definition join_players (s : Store) (g : Z) : list (PlayerGame * Player) :=
  flat_map
    (fun pg => map (pair pg) (keep (has_player_id (pg_playerID pg)) (players s)))
    (keep (of_game g) (playerGames s)).

Definition set_player (b : PlayerInput) (p : Player) : Player :=
  mkPlayer (player_id p) (name b) (email b).

Definition with_players (ps : list Player) (s : Store) : Store :=
  mkStore ps (games s) (playerGames s) (player_seq s).
Definition with_games (gs : list Game) (s : Store) : Store :=
  mkStore (players s) gs (playerGames s) (player_seq s).
Definition with_playerGames (pgs : list PlayerGame) (s : Store) : Store :=
  mkStore (players s) (games s) pgs (player_seq s).
Definition with_player_seq (n : Z) (s : Store) : Store :=
  mkStore (players s) (games s) (playerGames s) n.

(** A statement whose identifier text does not read as an integer fails
    and changes nothing. *)
Definition with_id (E : Engine) (txt : string) (s : Store)
    (k : Z -> QueryResult * Store) : QueryResult * Store :=
  match int4in E txt with
  | Some i => k i
  | None => (Failed invalid_text, s)
  end.

(** A parent row is deleted only if the foreign keys, where declared, allow it. *)
Definition fk_blocks {A : Type} (E : Engine) (victims : list A)
    (dependents : list PlayerGame) : bool :=
  match victims, dependents with
  | _ :: _, _ :: _ => enforce_fk E
  | _, _ => false
  end.

(** One statement on the store: its rows, or the error that refuses it, and
    the store after it.  A refused statement changes no table.  An UPDATE
    writes a new version of each row it matches, which an unordered scan
    meets after the rows left alone.  An INSERT draws its identifier from
    the sequence, unless the sequence has run out, before the row is
    checked. *)
Definition exec (E : Engine) (q : Sql) (s : Store) : QueryResult * Store :=
  match q with
  | SelectPlayers =>
      (Rows (map player_row (players s)), s)
  | SelectPlayerById p =>
      with_id E (id p) s (fun i =>
        (Rows (map player_row (keep (has_player_id i) (players s))), s))
  | UpdatePlayerById p b =>
      with_id E (id p) s (fun i =>
        (Rows (map (fun x => id_row (player_id x)) (keep (has_player_id i) (players s))),
         with_players
           (drop (has_player_id i) (players s)
              ++ map (set_player b) (keep (has_player_id i) (players s)))
           s))
  | InsertPlayer b =>
      let i := player_seq s + 1 in
      let s1 := with_player_seq i s in
      if int4_max <? i then (Failed sequence_exhausted, s)
      else if existsb (has_player_id i) (players s)
      then (Failed unique_violation, s1)
      else (Rows [id_row i],
            with_players (players s ++ [mkPlayer i (name b) (email b)]) s1)
  | DeletePlayerGameByPlayer p =>
      with_id E (id p) s (fun i =>
        (Rows [], with_playerGames (drop (of_player i) (playerGames s)) s))
  | DeletePlayerById p =>
      with_id E (id p) s (fun i =>
        let victims := keep (has_player_id i) (players s) in
        if fk_blocks E victims (keep (of_player i) (playerGames s))
        then (Failed foreign_key_violation, s)
        else (Rows (map (fun x => id_row (player_id x)) victims),
              with_players (drop (has_player_id i) (players s)) s))
  | SelectGames =>
      (Rows (map game_row (sort_by game_id (games s))), s)
  | SelectGamePlayers gid =>
      with_id E gid s (fun g =>
        (Rows (map score_row
                 (sort_by (fun x => pg_playerID (fst x)) (join_players s g))), s))
  | DeletePlayerGameByGame p =>
      with_id E (id p) s (fun i =>
        (Rows [], with_playerGames (drop (of_game i) (playerGames s)) s))
  | DeleteGameById p =>
      with_id E (id p) s (fun i =>
        let victims := keep (has_game_id i) (games s) in
        if fk_blocks E victims (keep (of_game i) (playerGames s))
        then (Failed foreign_key_violation, s)
        else (Rows (map (fun x => id_row (game_id x)) victims),
              with_games (drop (has_game_id i) (games s)) s))
  end.

(** ** The running service: store, pending store faults, SQL trace, console *)

(** What the handlers ask of the client, in order: a transaction opened or
    closed, or a query method called with a statement. *)
Inductive Event : Type :=
| EvBegin
| EvQuery (q : Sql)
| EvCommit
| EvRollback.

(** [faults] is the environment's schedule: one entry per query call,
    [Some e] making that call fail with [e] before the store runs the
    statement (connectivity and the like); past its end no fault occurs. *)
Record World : Type := mkWorld
  { store : Store;
    faults : list (option Error);
    trace : list Event;
    console : list string }.

Definition with_store (s : Store) (w : World) : World :=
  mkWorld s (faults w) (trace w) (console w).
Definition with_faults (fs : list (option Error)) (w : World) : World :=
  mkWorld (store w) fs (trace w) (console w).
Definition log_event (ev : Event) (w : World) : World :=
  mkWorld (store w) (faults w) (trace w ++ [ev]) (console w).
Definition console_error (line : string) (w : World) : World :=
  mkWorld (store w) (faults w) (trace w) (console w ++ [line]).

(** A driver takes one statement to the store and brings back its outcome. *)
Definition Driver : Type := Sql -> World -> QueryResult * World.

(** The fault, if any, that the environment has scheduled for the [n]-th
    statement from now. *)
Definition fault_at (n : nat) (w : World) : option Error := nth n (faults w) None.

Definition next_fault (w : World) : option Error := fault_at 0 w.

Definition postgres (E : Engine) : Driver := fun q w =>
  let w1 := with_faults (tl (faults w)) w in
  match next_fault w with
  | Some e => (Failed e, w1)
  | None => let (r, s) := exec E q (store w) in (r, with_store s w1)
  end.

(** The world once a query method has been called with [q]: the call is
    logged, its fault slot used up. *)
Definition sent (q : Sql) (w : World) : World :=
  with_faults (tl (faults w)) (log_event (EvQuery q) w).

(** ** Promises *)

Inductive Settled (A : Type) : Type :=
| Resolved (a : A)
| Rejected (e : Error).
Arguments Resolved {A} a.
Arguments Rejected {A} e.

(** An asynchronous computation of the service, run to its settlement. *)
Definition Async (A : Type) : Type := World -> Settled A * World.

Definition resolve {A : Type} (a : A) : Async A := fun w => (Resolved a, w).
Definition reject {A : Type} (e : Error) : Async A := fun w => (Rejected e, w).

(** [p.then(f)]: [f] runs on the value [p] resolves to; a rejection passes by. *)
Definition then_ {A B : Type} (p : Async A) (f : A -> Async B) : Async B :=
  fun w =>
    match p w with
    | (Resolved a, w1) => f a w1
    | (Rejected e, w1) => (Rejected e, w1)
    end.

(** [p.catch(g)]: [g] runs on the error [p] rejects with; a value passes by. *)
Definition catch_ {A : Type} (p : Async A) (g : Error -> Async A) : Async A :=
  fun w =>
    match p w with
    | (Resolved a, w1) => (Resolved a, w1)
    | (Rejected e, w1) => g e w1
    end.

Notation "p 'THEN' f" := (then_ p f) (at level 61, left associativity).
Notation "p 'CATCH' g" := (catch_ p g) (at level 61, left associativity).

(** ** The pg-promise client *)

(** The query methods shared by the database object [db] and by the
    transaction context [t]. *)
Record Queries : Type := mkQueries
  { none : Sql -> Async JsValue;
    one : Sql -> Async JsValue;
    oneOrNone : Sql -> Async JsValue;
    manyOrNone : Sql -> Async JsValue }.

Record Database : Type := mkDatabase
  { root :> Queries;
    tx : (Queries -> Async JsValue) -> Async JsValue }.

Definition no_data_expected : Error :=
  mkError "No return data was expected." "QueryResultError".
Definition no_data_returned : Error :=
  mkError "No data returned from the query." "QueryResultError".
Definition multiple_rows : Error :=
  mkError "Multiple rows were not expected." "QueryResultError".

(** What each method makes of the rows (or the failure) of its statement. *)
Definition expect_none (r : QueryResult) : Settled JsValue :=
  match r with
  | Rows [] => Resolved JNull
  | Rows (_ :: _) => Rejected no_data_expected
  | Failed e => Rejected e
  end.

Definition expect_one (r : QueryResult) : Settled JsValue :=
  match r with
  | Rows [] => Rejected no_data_returned
  | Rows [row] => Resolved row
  | Rows (_ :: _ :: _) => Rejected multiple_rows
  | Failed e => Rejected e
  end.

Definition expect_oneOrNone (r : QueryResult) : Settled JsValue :=
  match r with
  | Rows [] => Resolved JNull
  | Rows [row] => Resolved row
  | Rows (_ :: _ :: _) => Rejected multiple_rows
  | Failed e => Rejected e
  end.

Definition expect_manyOrNone (r : QueryResult) : Settled JsValue :=
  match r with
  | Rows rows => Resolved (JArray rows)
  | Failed e => Rejected e
  end.

(** The statement is sent (and has its effect) before its rows are counted. *)
Definition query (drv : Driver) (expect : QueryResult -> Settled JsValue)
    (q : Sql) : Async JsValue :=
  fun w => let (r, w1) := drv q (log_event (EvQuery q) w) in (expect r, w1).

Definition pgp_queries (drv : Driver) : Queries :=
  mkQueries (query drv expect_none) (query drv expect_one)
            (query drv expect_oneOrNone) (query drv expect_manyOrNone).

(** [db.tx(cb)]: BEGIN, the callback, then COMMIT if it resolves and
    ROLLBACK if it rejects, which puts the store back as it was at BEGIN;
    the promise settles as the callback did. *)
Definition pgp_tx (drv : Driver) (cb : Queries -> Async JsValue) : Async JsValue :=
  fun w =>
    match cb (pgp_queries drv) (log_event EvBegin w) with
    | (Resolved data, w1) => (Resolved data, log_event EvCommit w1)
    | (Rejected e, w1) => (Rejected e, log_event EvRollback (with_store (store w) w1))
    end.

Definition pgp (drv : Driver) : Database :=
  mkDatabase (pgp_queries drv) (pgp_tx drv).

(** ** The responses a handler can produce *)

Inductive Response : Type :=
| Send (data : JsValue)                   (* response.send(data) *)
| SendStatus (code : Z)                   (* response.sendStatus(code) *)
| StatusJson (code : Z) (data : JsValue)  (* res.status(code).json(data) *).

Definition status (r : Response) : Z :=
  match r with
  | Send _ => 200
  | SendStatus code => code
  | StatusJson code _ => code
  end.

(** What Express writes as the body of the response.  [send] and [json]
    write the value they are given, nothing for null and undefined;
    [sendStatus(code)] writes the status text of the code.  [None] where
    this is not fixed here: a bare number given to [send], and the text of
    a code other than 404, the one code the service passes to
    [sendStatus]. *)
Inductive Body : Type :=
| NoBody
| Content (data : JsValue).

Definition status_text (code : Z) : option string :=
  if code =? 404 then Some "Not Found" else None.

Definition written (r : Response) : option Body :=
  match r with
  | Send JUndefined | Send JNull => Some NoBody
  | Send (JNumber _) => None
  | Send data => Some (Content data)
  | SendStatus code =>
      match status_text code with
      | Some text => Some (Content (JString text))
      | None => None
      end
  | StatusJson _ data => Some (Content data)
  end.

(** A settled handler answered with status [code] and body [b]. *)
Definition answers (outcome : Settled Response) (code : Z) (b : Body) : Prop :=
  exists resp, outcome = Resolved resp /\ status resp = code /\ written resp = Some b.

Definition send (data : JsValue) : Async Response := resolve (Send data).
Definition sendStatus (code : Z) : Async Response := resolve (SendStatus code).

(** ** monopolyService.ts *)

Definition internal_server_error : Response :=
  StatusJson 500 (JObject [("error", JString "An internal server error occurred")]).

(** The custom error handler, the last middleware of the application. *)
Definition errorHandler (err : Error) : Async Response := fun w =>
  (Resolved internal_server_error,
   console_error ("Stack: " ++ stack err)%string
     (console_error ("Error: " ++ message err)%string w)).

(** [next(error)] in a handler passes the error on to the error handler. *)
Definition next (error : Error) : Async Response := errorHandler error.

Definition returnDataOr404 (data : JsValue) : Async Response :=
  if loose_eq_null data then sendStatus 404 else send data.

Definition readHello (_request : Request) : Async Response :=
  send (JString "Hello, CS 262 Monopoly service!").

Section Handlers.

Variable db : Database.

Definition readPlayers (_request : Request) : Async Response :=
  manyOrNone db SelectPlayers
    THEN (fun data => send data)
    CATCH (fun error => next error).

Definition readPlayer (request : Request) : Async Response :=
  oneOrNone db (SelectPlayerById (params request))
    THEN (fun data => returnDataOr404 data)
    CATCH (fun error => next error).

Definition updatePlayer (request : Request) : Async Response :=
  oneOrNone db (UpdatePlayerById (params request) (body request))
    THEN (fun data => returnDataOr404 data)
    CATCH (fun error => next error).

Definition createPlayer (request : Request) : Async Response :=
  one db (InsertPlayer (body request))
    THEN (fun data => send data)
    CATCH (fun error => next error).

Definition deletePlayer (request : Request) : Async Response :=
  tx db (fun t =>
    none t (DeletePlayerGameByPlayer (params request))
      THEN (fun _ => oneOrNone t (DeletePlayerById (params request))))
    THEN (fun data => returnDataOr404 data)
    CATCH (fun error => next error).

Definition readGames (_request : Request) : Async Response :=
  manyOrNone db SelectGames
    THEN (fun data => send data)
    CATCH (fun error => next error).

Definition readGamePlayers (request : Request) : Async Response :=
  manyOrNone db (SelectGamePlayers (id (params request)))
    THEN (fun data => send data)
    CATCH (fun error => next error).

Definition deleteGame (request : Request) : Async Response :=
  tx db (fun t =>
    none t (DeletePlayerGameByGame (params request))
      THEN (fun _ => oneOrNone t (DeleteGameById (params request))))
    THEN (fun data => returnDataOr404 data)
    CATCH (fun error => next error).

(** The routing table. *)
Inductive Route : Type :=
| GET_root
| GET_players
| GET_players_id
| PUT_players_id
| POST_players
| DELETE_players_id
| GET_games
| GET_games_id
| DELETE_games_id.

Definition router (r : Route) : Request -> Async Response :=
  match r with
  | GET_root => readHello
  | GET_players => readPlayers
  | GET_players_id => readPlayer
  | PUT_players_id => updatePlayer
  | POST_players => createPlayer
  | DELETE_players_id => deletePlayer
  | GET_games => readGames
  | GET_games_id => readGamePlayers
  | DELETE_games_id => deleteGame
  end.

End Handlers.

(** ** The body as it arrives *)

(** [request.body as PlayerInput] is a cast and checks nothing: the body is
    whatever JSON object the client sent.  pg-promise reads from it the
    properties the statement names and, when one is not there, rejects
    before any query is made.  Modelled for properties that are strings
    where they are present. *)
Record RawInput : Type := mkRawInput
  { raw_email : option string; raw_name : option string }.

Record RawRequest : Type := mkRawRequest
  { raw_params : Params; raw_body : RawInput }.

Definition property_missing (prop : string) : Error :=
  mkError ("Property '" ++ prop ++ "' doesn't exist.")%string "Error".

(** The body read for a statement that names [email], then [name], under
    [prefix] (empty for the INSERT, [body.] for the UPDATE). *)
Definition read_input (prefix : string) (b : RawInput) : Error + PlayerInput :=
  match raw_email b, raw_name b with
  | None, _ => inl (property_missing (prefix ++ "email")%string)
  | Some _, None => inl (property_missing (prefix ++ "name")%string)
  | Some e, Some n => inr (mkPlayerInput e n)
  end.

(** [updatePlayer] and [createPlayer] on a body as it arrives: as above
    when the body holds both properties; otherwise the promise of the query
    method is rejected at once and the same chain runs on it. *)
Definition updatePlayer_raw (db : Database) (raw : RawRequest) : Async Response :=
  match read_input "body." (raw_body raw) with
  | inr b => updatePlayer db (mkRequest (raw_params raw) b)
  | inl e =>
      reject e
        THEN (fun data => returnDataOr404 data)
        CATCH (fun error => next error)
  end.


(** The deployed service: the handlers over pg-promise over the store. *)
Definition service (E : Engine) : Database := pgp (postgres E).

Definition respond (E : Engine) (r : Route) (request : Request) (w : World)
    : Settled Response :=
  fst (router (service E) r request w).

Definition serve (E : Engine) (r : Route) (request : Request) (w : World) : World :=
  snd (router (service E) r request w).

(** Requests served one after the other, each run to its response before
    the next begins. *)
Fixpoint run (E : Engine) (calls : list (Route * Request)) (w : World) : World :=
  match calls with
  | [] => w
  | (r, request) :: rest => run E rest (serve E r request w)
  end.

(** ** Integrity of a store *)

Definition player_ids (s : Store) : list Z := map player_id (players s).
Definition game_ids (s : Store) : list Z := map game_id (games s).

Definition mem (i : Z) (l : list Z) : bool := existsb (Z.eqb i) l.

Fixpoint distinct (l : list Z) : bool :=
  match l with
  | [] => true
  | i :: l' => negb (mem i l') && distinct l'
  end.

(** A join row is an orphan when its player or its game is missing. *)
Definition orphan (s : Store) (pg : PlayerGame) : bool :=
  negb (mem (pg_playerID pg) (player_ids s) && mem (pg_gameID pg) (game_ids s)).

Definition no_orphans (s : Store) : Prop :=
  forallb (fun pg => negb (orphan s pg)) (playerGames s) = true.

(** The primary keys. *)
Definition primary_keys (s : Store) : Prop :=
  (distinct (player_ids s) && distinct (game_ids s)) = true.

(** The sequence has not been overtaken by identifiers inserted by hand. *)
Definition seq_ahead (s : Store) : Prop :=
  forallb (fun i => i <=? player_seq s) (player_ids s) = true.

(** A store as the schema and its sequence keep it. *)
Definition consistent (s : Store) : Prop :=
  primary_keys s /\ seq_ahead s /\ no_orphans s.

(** ** An engine and a store to evaluate the service on *)

Definition digit (c : ascii) : option Z :=
  let n := Z.of_nat (nat_of_ascii c) in
  if (48 <=? n) && (n <=? 57) then Some (n - 48) else None.

Definition blank (c : ascii) : bool :=
  let n := Z.of_nat (nat_of_ascii c) in
  (n =? 32) || ((9 <=? n) && (n <=? 13)).

Fixpoint skip_blanks (s : string) : string :=
  match s with
  | String c s' => if blank c then skip_blanks s' else s
  | EmptyString => s
  end.

(** Digits, at least one, then blanks only. *)
Fixpoint digits (acc : Z) (seen : bool) (s : string) : option Z :=
  match s with
  | EmptyString => if seen then Some acc else None
  | String c s' =>
      match digit c with
      | Some d => digits (10 * acc + d) true s'
      | None =>
          match skip_blanks s with
          | EmptyString => if seen then Some acc else None
          | String _ _ => None
          end
      end
  end.

(** Decimal text within the 32-bit range: blanks, an optional sign, digits,
    blanks. *)
Definition decimal (s : string) : option Z :=
  let signed :=
    match skip_blanks s with
    | String "-" s' =>
        match digits 0 false s' with
        | Some n => Some (- n)
        | None => None
        end
    | String "+" s' => digits 0 false s'
    | s' => digits 0 false s'
    end in
  match signed with
  | Some n => if (- int4_max - 1 <=? n) && (n <=? int4_max) then Some n else None
  | None => None
  end.

Definition strict : Engine := mkEngine decimal true.
Definition lax : Engine := mkEngine decimal false.

Definition sample_store : Store :=
  mkStore
    [mkPlayer 1 "Ann" "ann@x.com"; mkPlayer 3 "Cy" "cy@x.com"; mkPlayer 2 "Bo" "bo@x.com"]
    [mkGame 20; mkGame 10]
    [mkPlayerGame 10 3 300; mkPlayerGame 10 1 100; mkPlayerGame 20 2 50;
     mkPlayerGame 10 2 200]
    3.

Definition world_of (s : Store) (fs : list (option Error)) : World :=
  mkWorld s fs [] [].

Definition request_for (txt : string) : Request :=
  mkRequest (mkParams txt) (mkPlayerInput "" "").

Definition outage : Error := mkError "connection terminated" "at Client.query".

(** A store holding a join row whose player (7) is gone. *)
Definition stale_store : Store :=
  with_playerGames (mkPlayerGame 10 7 70 :: playerGames sample_store) sample_store.

(** A data access layer every promise of which resolves to undefined. *)
Definition void_queries : Queries :=
  mkQueries (fun _ => resolve JUndefined) (fun _ => resolve JUndefined)
            (fun _ => resolve JUndefined) (fun _ => resolve JUndefined).
Definition void_db : Database := mkDatabase void_queries (fun cb => cb void_queries).

(** A PUT for player 7, who is not in the sample store, whose body holds a
    name and no email. *)
Definition put_without_email : RawRequest :=
  mkRawRequest (mkParams "7") (mkRawInput None (Some "Di")).

Definition rename_cy_raw : RawRequest :=
  mkRawRequest (mkParams "3") (mkRawInput (Some "cy@y.org") (Some "Cyrus")).

Definition di : Request := mkRequest (mkParams "") (mkPlayerInput "di@x.com" "Di").
Definition rename_cy : Request := mkRequest (mkParams "3") (mkPlayerInput "cy@y.org" "Cyrus").

(** ** Vocabulary of the theorems *)

(** The promise whose value a handler hands to [returnDataOr404]. *)
Definition data_access (db : Database) (r : Route) (request : Request)
    : option (Async JsValue) :=
  match r with
  | GET_players_id => Some (oneOrNone db (SelectPlayerById (params request)))
  | PUT_players_id =>
      Some (oneOrNone db (UpdatePlayerById (params request) (body request)))
  | DELETE_players_id =>
      Some (tx db (fun t =>
        none t (DeletePlayerGameByPlayer (params request))
          THEN (fun _ => oneOrNone t (DeletePlayerById (params request)))))
  | DELETE_games_id =>
      Some (tx db (fun t =>
        none t (DeletePlayerGameByGame (params request))
          THEN (fun _ => oneOrNone t (DeleteGameById (params request)))))
  | _ => None
  end.

(** ** The two cascading deletes, side by side *)

Inductive Parent : Type := ThePlayer | TheGame.

Definition delete_route (k : Parent) : Route :=
  match k with
  | ThePlayer => DELETE_players_id
  | TheGame => DELETE_games_id
  end.

Definition delete_dependents (k : Parent) (p : Params) : Sql :=
  match k with
  | ThePlayer => DeletePlayerGameByPlayer p
  | TheGame => DeletePlayerGameByGame p
  end.

Definition delete_parent (k : Parent) (p : Params) : Sql :=
  match k with
  | ThePlayer => DeletePlayerById p
  | TheGame => DeleteGameById p
  end.

(** The join rows that reference parent [i]. *)
Definition refers (k : Parent) (i : Z) : PlayerGame -> bool :=
  match k with
  | ThePlayer => of_player i
  | TheGame => of_game i
  end.

Definition parent_ids (k : Parent) (s : Store) : list Z :=
  match k with
  | ThePlayer => player_ids s
  | TheGame => game_ids s
  end.

(** The store once the parents with id [i] are gone. *)
Definition without_parent (k : Parent) (i : Z) (s : Store) : Store :=
  match k with
  | ThePlayer => with_players (drop (has_player_id i) (players s)) s
  | TheGame => with_games (drop (has_game_id i) (games s)) s
  end.

Definition without_dependents (k : Parent) (i : Z) (s : Store) : Store :=
  with_playerGames (drop (refers k i) (playerGames s)) s.

Definition is_failed (r : QueryResult) : bool :=
  match r with
  | Failed _ => true
  | Rows _ => false
  end.

(** A statement fails when the environment faults it or the store refuses it. *)
Definition statement_fails (E : Engine) (q : Sql) (s : Store)
    (fault : option Error) : bool :=
  match fault with
  | Some _ => true
  | None => is_failed (fst (exec E q s))
  end.

(** How many parent rows carry id [i]. *)
Definition hits (k : Parent) (i : Z) (s : Store) : nat :=
  match k with
  | ThePlayer => List.length (keep (has_player_id i) (players s))
  | TheGame => List.length (keep (has_game_id i) (games s))
  end.

Definition is_parent_delete (q : Sql) : bool :=
  match q with
  | DeletePlayerById _ | DeleteGameById _ => true
  | _ => false
  end.

(** The SQL a cascading delete sends, in order. *)
Definition cascade (k : Parent) (request : Request) (events : list Event) : Prop :=
  events = [EvBegin; EvQuery (delete_dependents k (params request)); EvRollback]
  \/ events = [EvBegin; EvQuery (delete_dependents k (params request));
               EvQuery (delete_parent k (params request)); EvRollback]
  \/ events = [EvBegin; EvQuery (delete_dependents k (params request));
               EvQuery (delete_parent k (params request)); EvCommit].

(** ** Vocabulary of the further properties *)

(** The statement of a handler that sends exactly one. *)
Definition statement_of (r : Route) (request : Request) : option Sql :=
  match r with
  | GET_players => Some SelectPlayers
  | GET_players_id => Some (SelectPlayerById (params request))
  | PUT_players_id => Some (UpdatePlayerById (params request) (body request))
  | POST_players => Some (InsertPlayer (body request))
  | GET_games => Some SelectGames
  | GET_games_id => Some (SelectGamePlayers (id (params request)))
  | GET_root | DELETE_players_id | DELETE_games_id => None
  end.

(** The result method that handler calls, and what it does with the value. *)
Definition expectation (r : Route) : QueryResult -> Settled JsValue :=
  match r with
  | POST_players => expect_one
  | GET_players_id | PUT_players_id => expect_oneOrNone
  | _ => expect_manyOrNone
  end.

Definition answer (r : Route) (data : JsValue) : Response :=
  match r with
  | GET_players_id | PUT_players_id =>
      if loose_eq_null data then SendStatus 404 else Send data
  | _ => Send data
  end.


Definition is_get (r : Route) : bool :=
  match r with
  | GET_root | GET_players | GET_players_id | GET_games | GET_games_id => true
  | _ => false
  end.



(** The answer computed, it is not the one refuted. *)
Ltac not_that_answer :=
  let resp := fresh "resp" in
  let Hr := fresh "Hr" in
  let Hs := fresh "Hs" in
  let Hb := fresh "Hb" in
  intros (resp & Hr & Hs & Hb); vm_compute in Hr; inversion Hr; subst resp;
  vm_compute in Hs, Hb; discriminate.

(** * Proofs *)

(** ** Lists: filtering on a key, sorting *)

Lemma keep_drop_nil {A : Type} (f : A -> bool) (l : list A) : keep f (drop f l) = [].
Proof.
  unfold keep, drop. induction l as [|x l IH]; simpl; auto.
  destruct (f x) eqn:Hx; simpl; auto. now rewrite Hx.
Qed.

Lemma keep_nil_drop {A : Type} (f : A -> bool) (l : list A) : keep f l = [] -> drop f l = l.
Proof.
  unfold keep, drop. induction l as [|x l IH]; simpl; auto.
  destruct (f x); simpl; intros H; [discriminate | now rewrite IH].
Qed.

Lemma keep_nil_iff {A : Type} (f : A -> bool) (l : list A) :
  keep f l = [] <-> forall x, In x l -> f x = false.
Proof.
  unfold keep. induction l as [|x l IH]; simpl.
  - split; [intros _ y [] | reflexivity].
  - destruct (f x) eqn:Hx; split.
    + discriminate.
    + intros H. specialize (H x (or_introl eq_refl)). congruence.
    + intros H y [<-|Hy]; [assumption | now apply IH].
    + intros H. apply IH. intros y Hy. apply H. now right.
Qed.

Lemma insert_by_perm {A : Type} (key : A -> Z) (x : A) (l : list A) :
  Permutation (insert_by key x l) (x :: l).
Proof.
  induction l as [|y l IH]; simpl; [reflexivity|].
  destruct (key x <? key y); [reflexivity|].
  rewrite IH. apply perm_swap.
Qed.

Lemma sort_by_perm {A : Type} (key : A -> Z) (l : list A) : Permutation (sort_by key l) l.
Proof.
  induction l as [|x l IH]; simpl; [reflexivity|].
  rewrite insert_by_perm. now constructor.
Qed.

Lemma insert_by_hd {A : Type} (key : A -> Z) (x a : A) (l : list A) :
  key a <= key x ->
  HdRel (fun x y => key x <= key y) a l ->
  HdRel (fun x y => key x <= key y) a (insert_by key x l).
Proof.
  intros Hax Hl. destruct l as [|y l]; simpl.
  - now constructor.
  - destruct (key x <? key y); constructor; auto.
    now inversion Hl.
Qed.

Lemma insert_by_ascending {A : Type} (key : A -> Z) (x : A) (l : list A) :
  ascending key l -> ascending key (insert_by key x l).
Proof.
  unfold ascending. induction 1 as [|y l Hl IH Hhd]; simpl.
  - repeat constructor.
  - destruct (key x <? key y) eqn:Hlt.
    + apply Z.ltb_lt in Hlt. constructor.
      * now constructor.
      * constructor. lia.
    + apply Z.ltb_ge in Hlt. constructor; [assumption|].
      now apply insert_by_hd.
Qed.

Lemma sort_by_ascending {A : Type} (key : A -> Z) (l : list A) : ascending key (sort_by key l).
Proof.
  induction l as [|x l IH]; simpl.
  - constructor.
  - now apply insert_by_ascending.
Qed.

Lemma mem_In (i : Z) (l : list Z) : mem i l = true <-> In i l.
Proof.
  unfold mem. rewrite existsb_exists. split.
  - intros (x & Hx & Heq). apply Z.eqb_eq in Heq. now subst.
  - intros H. exists i. split; [assumption | apply Z.eqb_refl].
Qed.

Lemma distinct_NoDup (l : list Z) : distinct l = true <-> NoDup l.
Proof.
  induction l as [|i l IH]; simpl.
  - split; [constructor | reflexivity].
  - rewrite andb_true_iff, negb_true_iff, IH. split.
    + intros [Hm Hn]. constructor; [|assumption].
      intros Hin. apply mem_In in Hin. congruence.
    + intros H. inversion H as [|? ? Hnin Hnd]; subst. split; [|assumption].
      destruct (mem i l) eqn:Hm; [|reflexivity].
      now apply mem_In in Hm.
Qed.

(** Under a primary key, a key selects its row and nothing else. *)
Lemma keep_key {A : Type} (key : A -> Z) (i : Z) (l : list A) (x : A) :
  NoDup (map key l) -> In x l -> key x = i ->
  exists l1 l2, l = l1 ++ x :: l2
    /\ keep (fun y => key y =? i) l = [x]
    /\ keep (fun y => key y =? i) l1 = []
    /\ keep (fun y => key y =? i) l2 = [].
Proof.
  unfold keep. induction l as [|y l IH]; simpl; intros Hnd Hin Hk; [contradiction|].
  inversion Hnd as [|? ? Hnin Hnd']; subst.
  destruct Hin as [->|Hin].
  - exists [], l. rewrite Z.eqb_refl. simpl.
    assert (Hnone : filter (fun y => key y =? key x) l = []).
    { apply (keep_nil_iff (fun y => key y =? key x)). intros z Hz.
      apply Z.eqb_neq. intros Heq. apply Hnin. rewrite <- Heq. now apply in_map. }
    now rewrite Hnone.
  - destruct (IH Hnd' Hin eq_refl) as (l1 & l2 & -> & Hk1 & Hl1 & Hl2).
    exists (y :: l1), l2. simpl.
    assert (Hy : (key y =? key x) = false).
    { apply Z.eqb_neq. intros Heq. apply Hnin. rewrite Heq.
      apply in_map. apply in_or_app. right. now left. }
    rewrite Hy. auto.
Qed.

Lemma query_postgres (E : Engine) (expect : QueryResult -> Settled JsValue)
    (q : Sql) (w : World) :
  query (postgres E) expect q w =
    match next_fault w with
    | Some e => (expect (Failed e), sent q w)
    | None => (expect (fst (exec E q (store w))),
               with_store (snd (exec E q (store w))) (sent q w))
    end.
Proof.
  unfold query, postgres, sent, next_fault, fault_at. simpl.
  destruct (nth 0 (faults w) None); [reflexivity|].
  now destruct (exec E q (store w)).
Qed.

Lemma next_fault_sent (q : Sql) (w : World) : next_fault (sent q w) = fault_at 1 w.
Proof.
  unfold next_fault, fault_at, sent. simpl.
  destruct (faults w) as [|f fs]; simpl; [reflexivity|].
  now destruct fs.
Qed.

Lemma loose_eq_null_spec (data : JsValue) :
  loose_eq_null data = true <-> data = JNull \/ data = JUndefined.
Proof.
  destruct data; simpl; split; intros H; try discriminate; auto;
    destruct H as [H|H]; discriminate.
Qed.

Lemma router_data_access (db : Database) (r : Route) (request : Request)
    (p : Async JsValue) :
  data_access db r request = Some p ->
  router db r request = (p THEN (fun data => returnDataOr404 data)
                           CATCH (fun error => next error)).
Proof.
  destruct r; simpl; intros H; try discriminate; now inversion H.
Qed.

Lemma primary_keys_players (s : Store) :
  primary_keys s -> NoDup (map player_id (players s)).
Proof.
  unfold primary_keys. rewrite andb_true_iff. intros [H _].
  now apply distinct_NoDup.
Qed.

Lemma primary_keys_games (s : Store) :
  primary_keys s -> NoDup (map game_id (games s)).
Proof.
  unfold primary_keys. rewrite andb_true_iff. intros [_ H].
  now apply distinct_NoDup.
Qed.

Lemma no_player_with (i : Z) (l : list Player) :
  (forall p, In p l -> player_id p <> i) -> keep (has_player_id i) l = [].
Proof.
  intros H. apply keep_nil_iff. intros p Hp. apply Z.eqb_neq. now apply H.
Qed.

Lemma keep_app {A : Type} (f : A -> bool) (l1 l2 : list A) :
  keep f (l1 ++ l2) = keep f l1 ++ keep f l2.
Proof. apply filter_app. Qed.

Lemma drop_app {A : Type} (f : A -> bool) (l1 l2 : list A) :
  drop f (l1 ++ l2) = drop f l1 ++ drop f l2.
Proof. apply filter_app. Qed.

Lemma drop_keep_perm {A : Type} (f : A -> bool) (l : list A) :
  Permutation (drop f l ++ keep f l) l.
Proof.
  unfold drop, keep. induction l as [|x l IH]; cbn [filter]; [reflexivity|].
  destruct (f x); cbn [negb app].
  - rewrite <- Permutation_middle. now constructor.
  - now constructor.
Qed.

(** Around the one row of a key, nothing else carries it. *)
Lemma drop_around {A : Type} (f : A -> bool) (l1 l2 : list A) (x : A) :
  f x = true -> keep f l1 = [] -> keep f l2 = [] ->
  drop f (l1 ++ x :: l2) = l1 ++ l2 /\ keep f (l1 ++ x :: l2) = [x].
Proof.
  intros Hx H1 H2. rewrite drop_app, keep_app, H1. unfold drop at 2, keep at 1.
  cbn [filter]. rewrite Hx. cbn [negb app].
  fold (drop f l2) (keep f l2).
  now rewrite (keep_nil_drop _ _ H1), (keep_nil_drop _ _ H2), H2.
Qed.

(** The Player table after an UPDATE holds the identifiers it held. *)
Lemma rewritten_ids (f : Player -> bool) (b : PlayerInput) (l : list Player) :
  Permutation (map player_id (drop f l ++ map (set_player b) (keep f l)))
              (map player_id l).
Proof.
  rewrite map_app, map_map. cbn [set_player player_id].
  rewrite <- map_app. apply Permutation_map, drop_keep_perm.
Qed.

Lemma with_players_same (s : Store) : with_players (players s) s = s.
Proof. now destruct s. Qed.

Lemma seq_ahead_fresh (s : Store) :
  seq_ahead s -> ~ In (player_seq s + 1) (player_ids s).
Proof.
  unfold seq_ahead. rewrite forallb_forall. intros H Hin.
  apply H in Hin. apply Z.leb_le in Hin. lia.
Qed.

Lemma fresh_not_existsb (i : Z) (l : list Player) :
  ~ In i (map player_id l) -> existsb (has_player_id i) l = false.
Proof.
  intros H. destruct (existsb (has_player_id i) l) eqn:Hex; [|reflexivity].
  apply existsb_exists in Hex. destruct Hex as (p & Hp & Heq).
  apply Z.eqb_eq in Heq. exfalso. apply H. rewrite <- Heq. now apply in_map.
Qed.

(** The two promise chains the handlers end in. *)
Lemma then_404_catch_next (p : Async JsValue) (w : World) :
  (p THEN (fun data => returnDataOr404 data) CATCH (fun error => next error)) w
  = match p w with
    | (Resolved data, w1) =>
        (Resolved (if loose_eq_null data then SendStatus 404 else Send data), w1)
    | (Rejected e, w1) => errorHandler e w1
    end.
Proof.
  unfold catch_, then_, returnDataOr404.
  destruct (p w) as [[data|e] w1]; [|reflexivity].
  now destruct (loose_eq_null data).
Qed.

Lemma then_send_catch_next (p : Async JsValue) (w : World) :
  (p THEN (fun data => send data) CATCH (fun error => next error)) w
  = match p w with
    | (Resolved data, w1) => (Resolved (Send data), w1)
    | (Rejected e, w1) => errorHandler e w1
    end.
Proof.
  unfold catch_, then_. now destruct (p w) as [[data|e] w1].
Qed.

(** ** The theorems *)

(** C9: [returnDataOr404] takes null and undefined alike for an absent
    result.  For each of the four handlers that pass their result through it
    (get player, update player, delete player, delete game) and for any data
    access layer: if the result resolves to null or to undefined the handler
    calls [sendStatus(404)], and the answer is status 404 with the status
    text as its body (not an empty body); if it resolves to any other value
    the handler sends that very value, which (unless it is a bare number)
    is the body of the answer, with status 200. *)
Theorem nullish_result_is_404 (db : Database) (r : Route) (request : Request)
    (p : Async JsValue) (w w1 : World) (data : JsValue) :
  data_access db r request = Some p ->
  p w = (Resolved data, w1) ->
  (data = JNull \/ data = JUndefined ->
     router db r request w = (Resolved (SendStatus 404), w1)
     /\ answers (fst (router db r request w)) 404 (Content (JString "Not Found")))
  /\ (data <> JNull -> data <> JUndefined ->
     router db r request w = (Resolved (Send data), w1)
     /\ ((forall n, data <> JNumber n) ->
         answers (fst (router db r request w)) 200 (Content data))).
Proof.
  intros Hr Hp. rewrite (router_data_access _ _ _ _ Hr).
  unfold catch_, then_, returnDataOr404. rewrite Hp. split.
  - intros Hnull. apply loose_eq_null_spec in Hnull. rewrite Hnull.
    split; [reflexivity|]. exists (SendStatus 404). now repeat split.
  - intros Hn Hu. destruct (loose_eq_null data) eqn:Hl.
    + apply loose_eq_null_spec in Hl. tauto.
    + split; [reflexivity|]. intros Hnum. exists (Send data).
      split; [reflexivity|]. split; [reflexivity|].
      destruct data; try reflexivity; try contradiction.
      now elim (Hnum n).
Qed.


(** C4: GET /players/:id, for a path parameter that reads as the identifier
    [i], on a store that answers the query: when a Player row has id [i],
    the handler sends an object whose properties are that row's id, name
    and email; when none has, [oneOrNone] resolves to null (it does not
    reject), the handler calls [sendStatus(404)], the answer being status
    404 with the status text as its body (not an empty body), and the error
    handler stays out of it (nothing reaches the console). *)
Theorem readPlayer_row_or_404 (E : Engine) (request : Request) (w : World) (i : Z) :
  int4in E (id (params request)) = Some i ->
  next_fault w = None ->
  primary_keys (store w) ->
  let q := SelectPlayerById (params request) in
  (forall p, In p (players (store w)) -> player_id p = i ->
     exists props,
       readPlayer (service E) request w = (Resolved (Send (JObject props)), sent q w)
       /\ Permutation props [("id", JNumber (player_id p));
                             ("name", JString (player_name p));
                             ("email", JString (player_email p))])
  /\ ((forall p, In p (players (store w)) -> player_id p <> i) ->
     oneOrNone (service E) q w = (Resolved JNull, sent q w)
     /\ readPlayer (service E) request w = (Resolved (SendStatus 404), sent q w)
     /\ answers (fst (readPlayer (service E) request w)) 404
          (Content (JString "Not Found"))
     /\ console (sent q w) = console w).
Proof.
  intros Hid Hf Hpk q. subst q.
  unfold readPlayer, catch_, then_. cbn [service pgp root oneOrNone pgp_queries].
  rewrite query_postgres, Hf. cbn [exec]. unfold with_id. rewrite Hid.
  cbn [fst snd]. split.
  - intros p Hin Hp.
    destruct (keep_key player_id i _ p (primary_keys_players _ Hpk) Hin Hp)
      as (l1 & l2 & _ & Hk & _).
    unfold has_player_id. rewrite Hk. eexists. split; [reflexivity|].
    apply Permutation_refl.
  - intros Hnone. rewrite (no_player_with _ _ Hnone). cbn.
    repeat split. exists (SendStatus 404). now repeat split.
Qed.


(** C5: PUT /players/:id whose body holds an email and a name, for a path
    parameter that reads as the identifier [i], on a store that answers the
    statement.  The tables Game and PlayerGame and the sequence are
    untouched.  If a row has id [i], the handler sends [{id: i}] and the
    Player table holds what it held, except that this one row keeps its id
    and takes the name and email of the body.  If no row has id [i], the
    handler answers [sendStatus(404)] and the store is what it was. *)
Theorem updatePlayer_frame (E : Engine) (raw : RawRequest) (b : PlayerInput)
    (w : World) (i : Z) :
  read_input "body." (raw_body raw) = inr b ->
  int4in E (id (raw_params raw)) = Some i ->
  next_fault w = None ->
  primary_keys (store w) ->
  let w' := snd (updatePlayer_raw (service E) raw w) in
  games (store w') = games (store w)
  /\ playerGames (store w') = playerGames (store w)
  /\ player_seq (store w') = player_seq (store w)
  /\ (forall p, In p (players (store w)) -> player_id p = i ->
        fst (updatePlayer_raw (service E) raw w)
          = Resolved (Send (JObject [("id", JNumber i)]))
        /\ exists l1 l2,
             players (store w) = l1 ++ p :: l2
             /\ Permutation (players (store w'))
                            (mkPlayer i (name b) (email b) :: l1 ++ l2))
  /\ ((forall p, In p (players (store w)) -> player_id p <> i) ->
        fst (updatePlayer_raw (service E) raw w) = Resolved (SendStatus 404)
        /\ store w' = store w).
Proof.
  intros Hb Hid Hf Hpk w'. subst w'.
  unfold updatePlayer_raw. rewrite Hb.
  unfold updatePlayer. rewrite then_404_catch_next.
  cbn [service pgp root oneOrNone pgp_queries params body].
  rewrite query_postgres, Hf. cbn [exec]. unfold with_id. rewrite Hid.
  cbn [fst snd].
  split; [|split; [|split; [|split]]].
  - now destruct (expect_oneOrNone _).
  - now destruct (expect_oneOrNone _).
  - now destruct (expect_oneOrNone _).
  - intros p Hin Hp.
    destruct (keep_key player_id i _ p (primary_keys_players _ Hpk) Hin Hp)
      as (l1 & l2 & Hsplit & Hk & Hl1 & Hl2).
    fold (has_player_id i) in Hk, Hl1, Hl2.
    assert (Hhas : has_player_id i p = true)
      by (unfold has_player_id; rewrite Hp; apply Z.eqb_refl).
    rewrite Hk. cbn. rewrite Hp.
    split; [reflexivity|]. exists l1, l2. split; [assumption|].
    rewrite Hsplit, (proj1 (drop_around _ l1 l2 p Hhas Hl1 Hl2)).
    unfold set_player. rewrite Hp.
    apply Permutation_sym, Permutation_cons_append.
  - intros Hnone. pose proof (no_player_with _ _ Hnone) as Hk. rewrite Hk. cbn.
    split; [reflexivity|].
    rewrite (keep_nil_drop _ _ Hk), app_nil_r. apply with_players_same.
Qed.

(** C7: POST /players with a body holding name and email, on a store that
    answers the statement, whose sequence is ahead of the identifiers in
    the table and has not run out: the one query made carries the body
    only; the store draws the identifier [i] from its sequence; [i] is new;
    Player afterwards holds the rows it held and the one row
    [(i, name, email)]; nothing else changes; the handler sends [{id: i}]. *)
Theorem createPlayer_inserts (E : Engine) (request : Request) (w : World) :
  next_fault w = None ->
  seq_ahead (store w) ->
  player_seq (store w) < int4_max ->
  let i := player_seq (store w) + 1 in
  let w' := snd (createPlayer (service E) request w) in
  fst (createPlayer (service E) request w)
    = Resolved (Send (JObject [("id", JNumber i)]))
  /\ Permutation (players (store w'))
                 (mkPlayer i (name (body request)) (email (body request))
                    :: players (store w))
  /\ games (store w') = games (store w)
  /\ playerGames (store w') = playerGames (store w)
  /\ player_seq (store w') = i
  /\ trace w' = trace w ++ [EvQuery (InsertPlayer (body request))]
  /\ ~ In i (player_ids (store w)).
Proof.
  intros Hf Hseq Hmax i w'. subst i w'.
  pose proof (seq_ahead_fresh _ Hseq) as Hfresh.
  assert (Hfit : (int4_max <? player_seq (store w) + 1) = false)
    by (apply Z.ltb_ge; lia).
  unfold createPlayer, catch_, then_. cbn [service pgp root one pgp_queries].
  rewrite query_postgres, Hf. cbn [exec].
  rewrite Hfit, (fresh_not_existsb _ _ Hfresh). cbn.
  repeat split; try assumption.
  apply Permutation_sym, Permutation_cons_append.
Qed.

(** ** The two cascading deletes, side by side *)

Lemma delete_tx (E : Engine) (k : Parent) (request : Request) (w : World) :
  let q1 := delete_dependents k (params request) in
  let q2 := delete_parent k (params request) in
  let w1 := sent q1 (log_event EvBegin w) in
  let w2 := sent q2 w1 in
  router (service E) (delete_route k) request w
  = match next_fault w with
    | Some e => errorHandler e (log_event EvRollback w1)
    | None =>
        match exec E q1 (store w) with
        | (Failed e, _) => errorHandler e (log_event EvRollback w1)
        | (Rows (_ :: _), _) => errorHandler no_data_expected (log_event EvRollback w1)
        | (Rows [], s1) =>
            match fault_at 1 w with
            | Some e => errorHandler e (log_event EvRollback w2)
            | None =>
                match exec E q2 s1 with
                | (Failed e, _) => errorHandler e (log_event EvRollback w2)
                | (Rows [], s2) =>
                    (Resolved (SendStatus 404), log_event EvCommit (with_store s2 w2))
                | (Rows [row], s2) =>
                    (Resolved (if loose_eq_null row then SendStatus 404 else Send row),
                     log_event EvCommit (with_store s2 w2))
                | (Rows (_ :: _ :: _), _) =>
                    errorHandler multiple_rows (log_event EvRollback w2)
                end
            end
        end
    end.
Proof.
  assert (Hnf : next_fault (log_event EvBegin w) = next_fault w) by reflexivity.
  assert (Hw1 : forall s q, next_fault (with_store s (sent q (log_event EvBegin w)))
                            = fault_at 1 w).
  { intros s q. exact (next_fault_sent q (log_event EvBegin w)). }
  destruct k; cbn [router delete_route delete_dependents delete_parent];
    unfold deletePlayer, deleteGame;
    rewrite then_404_catch_next;
    cbn [service pgp tx root]; unfold pgp_tx, then_;
    cbn [none oneOrNone pgp_queries]; rewrite query_postgres, Hnf;
    (destruct (next_fault w) as [e|]; [reflexivity|]);
    change (store (log_event EvBegin w)) with (store w);
    (destruct (exec E _ (store w)) as [[[|r rs]|e] s1]; cbn [fst snd expect_none];
     [|reflexivity|reflexivity]);
    rewrite query_postgres, Hw1;
    (destruct (fault_at 1 w) as [e|]; [reflexivity|]);
    cbn [store with_store];
    (destruct (exec E _ s1) as [[[|r [|r' rs]]|e] s2]; reflexivity).
Qed.

Lemma exec_delete_dependents (E : Engine) (k : Parent) (p : Params) (s : Store) :
  exec E (delete_dependents k p) s
  = match int4in E (id p) with
    | Some i => (Rows [], without_dependents k i s)
    | None => (Failed invalid_text, s)
    end.
Proof. destruct k; cbn; unfold with_id; now destruct (int4in E (id p)). Qed.

Lemma returned_ids {A : Type} (key : A -> Z) (i : Z) (l : list A) :
  map (fun x => id_row (key x)) (keep (fun x => key x =? i) l)
  = repeat (id_row i) (List.length (keep (fun x => key x =? i) l)).
Proof.
  unfold keep. induction l as [|x l IH]; simpl; [reflexivity|].
  destruct (key x =? i) eqn:Hx; [|assumption].
  apply Z.eqb_eq in Hx. simpl. now rewrite IH, Hx.
Qed.

Lemma fk_blocks_nil {A : Type} (E : Engine) (victims : list A) :
  fk_blocks E victims [] = false.
Proof. now destruct victims. Qed.

(** Once the dependents are gone, no foreign key stands in the way of the
    parent's removal. *)
Lemma exec_delete_parent (E : Engine) (k : Parent) (p : Params) (s : Store) (i : Z) :
  int4in E (id p) = Some i ->
  exec E (delete_parent k p) (without_dependents k i s)
  = (Rows (repeat (id_row i) (hits k i s)),
     without_parent k i (without_dependents k i s)).
Proof.
  intros Hid. destruct k; cbn [delete_parent exec]; unfold with_id; rewrite Hid;
    cbn [without_dependents playerGames with_playerGames refers players games];
    rewrite keep_drop_nil, fk_blocks_nil.
  - unfold has_player_id at 1. now rewrite returned_ids.
  - unfold has_game_id at 1. now rewrite returned_ids.
Qed.

Lemma hits_none (k : Parent) (i : Z) (s : Store) :
  ~ In i (parent_ids k s) -> hits k i s = 0%nat.
Proof.
  intros Hnin.
  destruct k; cbn [hits parent_ids] in *.
  - replace (keep (has_player_id i) (players s)) with (@nil Player); [reflexivity|].
    symmetry. apply keep_nil_iff. intros p Hp. apply Z.eqb_neq. intros Heq.
    apply Hnin. rewrite <- Heq. unfold player_ids. now apply in_map.
  - replace (keep (has_game_id i) (games s)) with (@nil Game); [reflexivity|].
    symmetry. apply keep_nil_iff. intros g Hg. apply Z.eqb_neq. intros Heq.
    apply Hnin. rewrite <- Heq. unfold game_ids. now apply in_map.
Qed.

Lemma without_parent_none (k : Parent) (i : Z) (s : Store) :
  hits k i s = 0%nat -> without_parent k i s = s.
Proof.
  destruct k; cbn [hits without_parent]; intros H; apply length_zero_iff_nil in H.
  - rewrite (keep_nil_drop _ _ H). now destruct s.
  - rewrite (keep_nil_drop _ _ H). now destruct s.
Qed.

Lemma hits_without_dependents (k : Parent) (i j : Z) (s : Store) :
  hits k i (without_dependents k j s) = hits k i s.
Proof. now destruct k. Qed.

(** The delete handlers on a store that answers both statements. *)
Lemma delete_answered (E : Engine) (k : Parent) (request : Request) (w : World) (i : Z) :
  int4in E (id (params request)) = Some i ->
  fault_at 0 w = None ->
  fault_at 1 w = None ->
  let q1 := delete_dependents k (params request) in
  let q2 := delete_parent k (params request) in
  let w2 := sent q2 (sent q1 (log_event EvBegin w)) in
  let s2 := without_parent k i (without_dependents k i (store w)) in
  router (service E) (delete_route k) request w
  = match hits k i (store w) with
    | O => (Resolved (SendStatus 404), log_event EvCommit (with_store s2 w2))
    | S O => (Resolved (Send (id_row i)), log_event EvCommit (with_store s2 w2))
    | S (S _) => errorHandler multiple_rows (log_event EvRollback w2)
    end.
Proof.
  intros Hid Hf0 Hf1 q1 q2 w2 s2. rewrite delete_tx.
  unfold next_fault. rewrite Hf0, Hf1, exec_delete_dependents, Hid.
  rewrite (exec_delete_parent _ _ _ _ _ Hid).
  destruct (hits k i (store w)) as [|[|n]]; reflexivity.
Qed.

(** C2: DELETE /players/:id and DELETE /games/:id for an identifier [i]
    that no parent row carries, on a store that answers both statements:
    the transaction commits, so the PlayerGame rows referencing [i] that the
    first statement removed stay removed (and nothing else changed), and the
    handler calls [sendStatus(404)]: the answer is status 404 with the
    status text as its body (not an empty body). *)
Theorem delete_absent_parent_commits (E : Engine) (k : Parent) (request : Request)
    (w : World) (i : Z) :
  int4in E (id (params request)) = Some i ->
  fault_at 0 w = None ->
  fault_at 1 w = None ->
  ~ In i (parent_ids k (store w)) ->
  respond E (delete_route k) request w = Resolved (SendStatus 404)
  /\ answers (respond E (delete_route k) request w) 404 (Content (JString "Not Found"))
  /\ store (serve E (delete_route k) request w) = without_dependents k i (store w)
  /\ trace (serve E (delete_route k) request w)
     = trace w ++ [EvBegin;
                   EvQuery (delete_dependents k (params request));
                   EvQuery (delete_parent k (params request));
                   EvCommit].
Proof.
  intros Hid Hf0 Hf1 Hnone. unfold respond, serve.
  rewrite (delete_answered _ _ _ _ _ Hid Hf0 Hf1).
  pose proof (hits_none _ _ _ Hnone) as Hh. rewrite Hh.
  cbn [fst snd]. split; [reflexivity|]. split; [|split].
  - exists (SendStatus 404). now repeat split.
  - cbn [store log_event with_store].
    apply without_parent_none. now rewrite hits_without_dependents.
  - cbn. now rewrite <- !app_assoc.
Qed.


(** ** Referential integrity along the service's operations *)

Lemma no_orphans_spec (s : Store) :
  no_orphans s <->
  forall pg, In pg (playerGames s) ->
    In (pg_playerID pg) (player_ids s) /\ In (pg_gameID pg) (game_ids s).
Proof.
  unfold no_orphans, orphan. rewrite forallb_forall.
  split; intros H pg Hpg; specialize (H pg Hpg).
  - rewrite negb_involutive, andb_true_iff, !mem_In in H. exact H.
  - now rewrite negb_involutive, andb_true_iff, !mem_In.
Qed.

(** Fewer join rows and at least the parents they name: still no orphan. *)
Lemma no_orphans_mono (s s' : Store) :
  incl (playerGames s') (playerGames s) ->
  (forall pg, In pg (playerGames s') ->
     In (pg_playerID pg) (player_ids s) -> In (pg_playerID pg) (player_ids s')) ->
  (forall pg, In pg (playerGames s') ->
     In (pg_gameID pg) (game_ids s) -> In (pg_gameID pg) (game_ids s')) ->
  no_orphans s -> no_orphans s'.
Proof.
  rewrite !no_orphans_spec. intros Hpg Hp Hg H pg Hin.
  destruct (H pg (Hpg pg Hin)) as [H1 H2]. split; auto.
Qed.

Lemma drop_incl {A : Type} (f : A -> bool) (l : list A) : incl (drop f l) l.
Proof. intros x Hx. unfold drop in Hx. now apply filter_In in Hx. Qed.

Lemma in_drop {A : Type} (f : A -> bool) (l : list A) (x : A) :
  In x (drop f l) <-> In x l /\ f x = false.
Proof. unfold drop. now rewrite filter_In, negb_true_iff. Qed.

Lemma in_ids_drop {A : Type} (key : A -> Z) (i j : Z) (l : list A) :
  j <> i -> In j (map key l) -> In j (map key (drop (fun x => key x =? i) l)).
Proof.
  intros Hne Hin. apply in_map_iff in Hin. destruct Hin as (x & <- & Hx).
  apply in_map. apply in_drop. split; [assumption | now apply Z.eqb_neq].
Qed.

(** The cascade: with the join rows of [i] gone first, the parents with id
    [i] can go without leaving an orphan. *)
Lemma cascade_no_orphans (k : Parent) (i : Z) (s : Store) :
  no_orphans s -> no_orphans (without_parent k i (without_dependents k i s)).
Proof.
  apply no_orphans_mono; destruct k;
    cbn [without_parent without_dependents with_players with_games with_playerGames
         playerGames players games player_ids game_ids refers];
    try apply drop_incl; try (intros pg _ H; exact H).
  - intros pg Hpg. apply in_drop in Hpg. destruct Hpg as [_ Hne].
    apply Z.eqb_neq in Hne. now apply (in_ids_drop player_id).
  - intros pg Hpg. apply in_drop in Hpg. destruct Hpg as [_ Hne].
    apply Z.eqb_neq in Hne. now apply (in_ids_drop game_id).
Qed.

(** Every statement but a parent delete keeps the parents and adds no join row. *)
Lemma exec_no_orphans (E : Engine) (q : Sql) (s : Store) :
  is_parent_delete q = false -> no_orphans s -> no_orphans (snd (exec E q s)).
Proof.
  intros Hq. apply no_orphans_mono; destruct q; try discriminate;
    cbn [exec]; unfold with_id;
    repeat match goal with
           | |- context [int4in E ?t] => destruct (int4in E t)
           | |- context [int4_max <? ?n] => destruct (int4_max <? n)
           | |- context [existsb ?f ?l] => destruct (existsb f l)
           end;
    cbn [snd with_players with_playerGames with_player_seq playerGames players games
         player_ids game_ids player_seq];
    try apply incl_refl; try apply drop_incl; try (intros pg _ H; exact H).
  - intros pg _ H. unfold player_ids. cbn [players with_players].
    now apply (Permutation_in _ (Permutation_sym (rewritten_ids _ _ _))).
  - intros pg _ H. unfold player_ids. cbn [players with_players].
    rewrite map_app. apply in_or_app. now left.
Qed.

Lemma query_store (E : Engine) (expect : QueryResult -> Settled JsValue)
    (q : Sql) (w : World) :
  store (snd (query (postgres E) expect q w)) = store w
  \/ store (snd (query (postgres E) expect q w)) = snd (exec E q (store w)).
Proof.
  rewrite query_postgres. destruct (next_fault w); [now left | now right].
Qed.

Lemma chain_404_store (p : Async JsValue) (w : World) :
  store (snd ((p THEN (fun data => returnDataOr404 data)
                 CATCH (fun error => next error)) w)) = store (snd (p w)).
Proof. rewrite then_404_catch_next. now destruct (p w) as [[data|e] w1]. Qed.

Lemma chain_send_store (p : Async JsValue) (w : World) :
  store (snd ((p THEN (fun data => send data)
                 CATCH (fun error => next error)) w)) = store (snd (p w)).
Proof. rewrite then_send_catch_next. now destruct (p w) as [[data|e] w1]. Qed.

(** All or nothing: a cascading delete leaves the store as it was, or with
    both deletions done. *)
Lemma delete_atomic (E : Engine) (k : Parent) (request : Request) (w : World) :
  store (serve E (delete_route k) request w) = store w
  \/ exists i, int4in E (id (params request)) = Some i
       /\ store (serve E (delete_route k) request w)
          = without_parent k i (without_dependents k i (store w)).
Proof.
  unfold serve. rewrite delete_tx, exec_delete_dependents.
  destruct (next_fault w); [now left|].
  destruct (int4in E (id (params request))) as [i|] eqn:Hid; [|now left].
  destruct (fault_at 1 w); [now left|].
  rewrite (exec_delete_parent _ _ _ _ _ Hid).
  destruct (hits k i (store w)) as [|[|n]]; cbn [repeat]; [right|right|now left];
    exists i; now split.
Qed.

(** What a request can do to the store: nothing, one statement that is
    not a parent delete, or a whole cascade. *)
Lemma serve_store (E : Engine) (r : Route) (request : Request) (w : World) :
  store (serve E r request w) = store w
  \/ (exists q, is_parent_delete q = false
        /\ store (serve E r request w) = snd (exec E q (store w)))
  \/ (exists k i, store (serve E r request w)
                  = without_parent k i (without_dependents k i (store w))).
Proof.
  assert (Hq : forall expect q w',
            is_parent_delete q = false ->
            store w' = store (snd (query (postgres E) expect q w)) ->
            store w' = store w
            \/ (exists q, is_parent_delete q = false
                  /\ store w' = snd (exec E q (store w)))
            \/ (exists k i, store w'
                  = without_parent k i (without_dependents k i (store w)))).
  { intros expect q w' Hq ->. destruct (query_store E expect q w) as [-> | ->];
      [now left | right; left; now exists q]. }
  destruct r; unfold serve; cbn [router];
    try (eapply Hq; [|unfold readPlayers, readGames, readGamePlayers, createPlayer;
                      apply chain_send_store]; reflexivity);
    try (eapply Hq; [|unfold readPlayer, updatePlayer; apply chain_404_store];
         reflexivity).
  - now left.
  - destruct (delete_atomic E ThePlayer request w) as [Hs | (i & _ & Hs)];
      [now left | right; right; now exists ThePlayer, i].
  - destruct (delete_atomic E TheGame request w) as [Hs | (i & _ & Hs)];
      [now left | right; right; now exists TheGame, i].
Qed.

Lemma serve_no_orphans (E : Engine) (r : Route) (request : Request) (w : World) :
  no_orphans (store w) -> no_orphans (store (serve E r request w)).
Proof.
  intros H.
  destruct (serve_store E r request w) as [-> | [(q & Hq & ->) | (k & i & ->)]];
    [assumption | now apply exec_no_orphans | now apply cascade_no_orphans].
Qed.

Lemma run_no_orphans (E : Engine) (calls : list (Route * Request)) (w : World) :
  no_orphans (store w) -> no_orphans (store (run E calls w)).
Proof.
  revert w. induction calls as [|[r request] calls IH]; intros w H; cbn [run].
  - exact H.
  - apply IH. now apply serve_no_orphans.
Qed.

(** ** Keys and sequence along the service's operations *)

Lemma primary_keys_spec (s : Store) :
  primary_keys s <-> NoDup (player_ids s) /\ NoDup (game_ids s).
Proof.
  unfold primary_keys. now rewrite andb_true_iff, !distinct_NoDup.
Qed.

Lemma seq_ahead_spec (s : Store) :
  seq_ahead s <-> forall i, In i (player_ids s) -> i <= player_seq s.
Proof.
  unfold seq_ahead. rewrite forallb_forall.
  split; intros H i Hi; specialize (H i Hi); now apply Z.leb_le.
Qed.

Lemma NoDup_map_drop {A : Type} (key : A -> Z) (f : A -> bool) (l : list A) :
  NoDup (map key l) -> NoDup (map key (drop f l)).
Proof.
  unfold drop. induction l as [|x l IH]; cbn [map filter]; intros H; [constructor|].
  inversion H as [|? ? Hnin Hnd]; subst.
  destruct (negb (f x)); [|now apply IH].
  cbn [map]. constructor; [|now apply IH].
  intros Hin. apply Hnin. apply in_map_iff in Hin. destruct Hin as (y & Hy & Hin).
  apply filter_In in Hin. rewrite <- Hy. apply in_map. tauto.
Qed.

Lemma NoDup_snoc (i : Z) (l : list Z) : NoDup l -> ~ In i l -> NoDup (l ++ [i]).
Proof.
  induction l as [|j l IH]; cbn [app]; intros Hnd Hnin.
  - constructor; [intros [] | constructor].
  - inversion Hnd as [|? ? Hj Hl]; subst. constructor.
    + intros Hin. apply in_app_or in Hin. destruct Hin as [Hin|[->|[]]];
        [contradiction | apply Hnin; now left].
    + apply IH; [assumption | intros Hin; apply Hnin; now right].
Qed.

Lemma not_existsb_fresh (i : Z) (l : list Player) :
  existsb (has_player_id i) l = false -> ~ In i (map player_id l).
Proof.
  intros Hex Hin. apply in_map_iff in Hin. destruct Hin as (p & Hp & Hin).
  assert (H : existsb (has_player_id i) l = true); [|congruence].
  apply existsb_exists. exists p. split; [assumption | now apply Z.eqb_eq].
Qed.

Lemma exec_primary_keys (E : Engine) (q : Sql) (s : Store) :
  is_parent_delete q = false -> primary_keys s -> primary_keys (snd (exec E q s)).
Proof.
  rewrite !primary_keys_spec. unfold player_ids, game_ids.
  intros Hq [Hp Hg]. destruct q; try discriminate; cbn [exec]; unfold with_id;
    repeat match goal with
           | |- context [int4in E ?t] => destruct (int4in E t)
           | |- context [int4_max <? ?n] => destruct (int4_max <? n)
           | |- context [existsb ?f ?l] => destruct (existsb f l) eqn:Hex
           end;
    cbn [snd with_players with_playerGames with_player_seq players games];
    try (split; assumption).
  - split; [|assumption].
    now apply (Permutation_NoDup (Permutation_sym (rewritten_ids _ _ _))).
  - split; [|assumption]. rewrite map_app. apply NoDup_snoc; [assumption|].
    now apply not_existsb_fresh.
Qed.

Lemma exec_seq_ahead (E : Engine) (q : Sql) (s : Store) :
  is_parent_delete q = false -> seq_ahead s -> seq_ahead (snd (exec E q s)).
Proof.
  rewrite !seq_ahead_spec. unfold player_ids.
  intros Hq H. destruct q; try discriminate; cbn [exec]; unfold with_id;
    repeat match goal with
           | |- context [int4in E ?t] => destruct (int4in E t)
           | |- context [int4_max <? ?n] => destruct (int4_max <? n)
           | |- context [existsb ?f ?l] => destruct (existsb f l)
           end;
    cbn [snd with_players with_playerGames with_player_seq players player_seq];
    try exact H.
  - intros j Hj. apply H.
    exact (Permutation_in _ (rewritten_ids _ _ _) Hj).
  - intros i Hi. apply H in Hi. lia.
  - intros i Hi. rewrite map_app in Hi. apply in_app_or in Hi.
    destruct Hi as [Hi|[<-|[]]]; [apply H in Hi; lia | cbn; lia].
Qed.

Lemma cascade_primary_keys (k : Parent) (i : Z) (s : Store) :
  primary_keys s -> primary_keys (without_parent k i (without_dependents k i s)).
Proof.
  rewrite !primary_keys_spec. unfold player_ids, game_ids. intros [Hp Hg].
  destruct k; cbn; split; try assumption; now apply NoDup_map_drop.
Qed.

Lemma cascade_seq_ahead (k : Parent) (i : Z) (s : Store) :
  seq_ahead s -> seq_ahead (without_parent k i (without_dependents k i s)).
Proof.
  rewrite !seq_ahead_spec. unfold player_ids. intros H.
  destruct k; cbn; [|exact H].
  intros j Hj. apply H. apply in_map_iff in Hj. destruct Hj as (p & Hp & Hin).
  apply in_drop in Hin. rewrite <- Hp. apply in_map. tauto.
Qed.

(** Every request leaves a consistent store consistent. *)
Lemma serve_consistent (E : Engine) (r : Route) (request : Request) (w : World) :
  consistent (store w) -> consistent (store (serve E r request w)).
Proof.
  intros (Hpk & Hseq & Hno).
  destruct (serve_store E r request w) as [-> | [(q & Hq & ->) | (k & i & ->)]].
  - now repeat split.
  - repeat split; [now apply exec_primary_keys | now apply exec_seq_ahead
                   | now apply exec_no_orphans].
  - repeat split; [now apply cascade_primary_keys | now apply cascade_seq_ahead
                   | now apply cascade_no_orphans].
Qed.

Lemma run_consistent (E : Engine) (calls : list (Route * Request)) (w : World) :
  consistent (store w) -> consistent (store (run E calls w)).
Proof.
  revert w. induction calls as [|[r request] calls IH]; intros w H; cbn [run].
  - exact H.
  - apply IH. now apply serve_consistent.
Qed.

Lemma delete_trace (E : Engine) (k : Parent) (request : Request) (w : World) :
  exists events,
    trace (serve E (delete_route k) request w) = trace w ++ events
    /\ cascade k request events.
Proof.
  unfold serve, cascade. rewrite delete_tx.
  set (q1 := delete_dependents k (params request)).
  set (q2 := delete_parent k (params request)).
  assert (H1 : forall e, trace (snd (errorHandler e
                 (log_event EvRollback (sent q1 (log_event EvBegin w)))))
               = trace w ++ [EvBegin; EvQuery q1; EvRollback]).
  { intros e. cbn. now rewrite <- !app_assoc. }
  assert (H2 : forall e, trace (snd (errorHandler e
                 (log_event EvRollback (sent q2 (sent q1 (log_event EvBegin w))))))
               = trace w ++ [EvBegin; EvQuery q1; EvQuery q2; EvRollback]).
  { intros e. cbn. now rewrite <- !app_assoc. }
  assert (H3 : forall s, trace (log_event EvCommit
                 (with_store s (sent q2 (sent q1 (log_event EvBegin w)))))
               = trace w ++ [EvBegin; EvQuery q1; EvQuery q2; EvCommit]).
  { intros s. cbn. now rewrite <- !app_assoc. }
  destruct (next_fault w); [eexists; split; [apply H1 | auto]|].
  destruct (exec E q1 (store w)) as [[[|r rows]|e] s1];
    [| eexists; split; [apply H1 | auto] ..].
  destruct (fault_at 1 w); [eexists; split; [apply H2 | auto]|].
  destruct (exec E q2 s1) as [[[|r [|r' rows]]|e] s2]; cbn [snd];
    eexists; (split; [first [apply H2 | apply H3] | auto]).
Qed.

Lemma cascade_clears (k : Parent) (i : Z) (s : Store) :
  ~ In i (parent_ids k (without_parent k i (without_dependents k i s)))
  /\ keep (refers k i)
       (playerGames (without_parent k i (without_dependents k i s))) = [].
Proof.
  split.
  - destruct k; cbn; intros Hin; apply in_map_iff in Hin;
      destruct Hin as (x & Hx & Hin); apply in_drop in Hin;
      destruct Hin as [_ Hne]; apply Z.eqb_neq in Hne; contradiction.
  - destruct k; cbn [without_parent without_dependents with_players with_games
                     with_playerGames playerGames]; apply keep_drop_nil.
Qed.

Lemma hits_le_one (k : Parent) (i : Z) (s : Store) :
  primary_keys s ->
  (In i (parent_ids k s) /\ hits k i s = 1%nat)
  \/ (~ In i (parent_ids k s) /\ hits k i s = 0%nat).
Proof.
  intros Hpk. destruct (In_dec Z.eq_dec i (parent_ids k s)) as [Hin|Hnin].
  - left. split; [assumption|].
    destruct k; cbn [parent_ids hits] in *; apply in_map_iff in Hin;
      destruct Hin as (x & Hx & Hin).
    + destruct (keep_key player_id i _ x (primary_keys_players _ Hpk) Hin Hx)
        as (_ & _ & _ & Hk & _).
      unfold has_player_id. now rewrite Hk.
    + destruct (keep_key game_id i _ x (primary_keys_games _ Hpk) Hin Hx)
        as (_ & _ & _ & Hk & _).
      unfold has_game_id. now rewrite Hk.
  - right. split; [assumption | now apply hits_none].
Qed.

Lemma parent_ids_without_dependents (k : Parent) (i : Z) (s : Store) :
  parent_ids k (without_dependents k i s) = parent_ids k s.
Proof. now destruct k. Qed.

Lemma in_parent_ids_without (k : Parent) (i j : Z) (s : Store) :
  In j (parent_ids k (without_parent k i s)) <-> In j (parent_ids k s) /\ j <> i.
Proof.
  destruct k; cbn [parent_ids without_parent]; unfold player_ids, game_ids;
    cbn [players games with_players with_games];
    rewrite !in_map_iff; split.
  - intros (x & Hx & Hin). apply in_drop in Hin. destruct Hin as [Hin Hne].
    apply Z.eqb_neq in Hne. split; [now exists x | congruence].
  - intros [(x & Hx & Hin) Hne]. exists x. split; [assumption|].
    apply in_drop. split; [assumption | apply Z.eqb_neq; congruence].
  - intros (x & Hx & Hin). apply in_drop in Hin. destruct Hin as [Hin Hne].
    apply Z.eqb_neq in Hne. split; [now exists x | congruence].
  - intros [(x & Hx & Hin) Hne]. exists x. split; [assumption|].
    apply in_drop. split; [assumption | apply Z.eqb_neq; congruence].
Qed.

Lemma playerGames_without_parent (k : Parent) (i : Z) (s : Store) :
  playerGames (without_parent k i s) = playerGames s.
Proof. now destruct k. Qed.

(** An answered cascade on a store with its primary keys commits. *)
Lemma delete_committed (E : Engine) (k : Parent) (request : Request) (w : World) (i : Z) :
  int4in E (id (params request)) = Some i ->
  fault_at 0 w = None ->
  fault_at 1 w = None ->
  primary_keys (store w) ->
  serve E (delete_route k) request w
  = log_event EvCommit
      (with_store (without_parent k i (without_dependents k i (store w)))
         (sent (delete_parent k (params request))
            (sent (delete_dependents k (params request)) (log_event EvBegin w)))).
Proof.
  intros Hid Hf0 Hf1 Hpk. unfold serve.
  rewrite (delete_answered _ _ _ _ _ Hid Hf0 Hf1).
  destruct (hits_le_one k i _ Hpk) as [[_ ->] | [_ ->]]; reflexivity.
Qed.

(** C1: DELETE /players/:id and DELETE /games/:id.  Whatever happens, the
    handler opens a transaction, calls the delete of the PlayerGame rows of
    the identifier first and the delete of the parent row only after it,
    and closes the transaction; the store ends either as it was or with both
    deletions done.  On a store with its primary keys that answers both
    statements, for a path parameter that reads as the identifier [i], both
    are done and committed: afterwards the PlayerGame rows are those of
    before that did not reference [i], and the parents are those of before
    other than [i].  On a store without orphans no PlayerGame row is an
    orphan afterwards, nor after any further requests to the service. *)
Theorem deletes_leave_no_orphans (E : Engine) (k : Parent) (request : Request)
    (calls : list (Route * Request)) (w : World) :
  (exists events,
     trace (serve E (delete_route k) request w) = trace w ++ events
     /\ cascade k request events)
  /\ (store (serve E (delete_route k) request w) = store w
      \/ exists i,
           int4in E (id (params request)) = Some i
           /\ store (serve E (delete_route k) request w)
              = without_parent k i (without_dependents k i (store w)))
  /\ (forall i,
        int4in E (id (params request)) = Some i ->
        fault_at 0 w = None ->
        fault_at 1 w = None ->
        primary_keys (store w) ->
        trace (serve E (delete_route k) request w)
          = trace w ++ [EvBegin;
                        EvQuery (delete_dependents k (params request));
                        EvQuery (delete_parent k (params request));
                        EvCommit]
        /\ (forall pg,
              In pg (playerGames (store (serve E (delete_route k) request w)))
              <-> In pg (playerGames (store w))
                  /\ match k with
                     | ThePlayer => pg_playerID pg
                     | TheGame => pg_gameID pg
                     end <> i)
        /\ (forall j,
              In j (parent_ids k (store (serve E (delete_route k) request w)))
              <-> In j (parent_ids k (store w)) /\ j <> i)
        /\ match k with
           | ThePlayer =>
               games (store (serve E (delete_route k) request w)) = games (store w)
           | TheGame =>
               players (store (serve E (delete_route k) request w))
                 = players (store w)
           end)
  /\ (no_orphans (store w) ->
      no_orphans (store (serve E (delete_route k) request w))
      /\ no_orphans (store (run E calls (serve E (delete_route k) request w)))).
Proof.
  split; [apply delete_trace|]. split; [apply delete_atomic|]. split.
  - intros i Hid Hf0 Hf1 Hpk.
    rewrite (delete_committed _ _ _ _ _ Hid Hf0 Hf1 Hpk).
    cbn [store trace log_event with_store]. split; [|split; [|split]].
    + cbn. now rewrite <- !app_assoc.
    + intros pg. rewrite playerGames_without_parent. cbn [without_dependents
        playerGames with_playerGames]. rewrite in_drop.
      destruct k; cbn [refers]; unfold of_player, of_game;
        now rewrite Z.eqb_neq.
    + intros j. now rewrite in_parent_ids_without, parent_ids_without_dependents.
    + now destruct k.
  - intros H. split; [|apply run_no_orphans]; now apply serve_no_orphans.
Qed.

(** ** The join behind GET /games/:id *)

Lemma join_joined (s : Store) (g : Z) :
  Forall (fun x => In (snd x) (players s) /\ player_id (snd x) = pg_playerID (fst x))
         (join_players s g).
Proof.
  apply Forall_forall. intros [pg p] Hin. unfold join_players in Hin.
  apply in_flat_map in Hin. destruct Hin as (pg' & _ & Hin).
  apply in_map_iff in Hin. destruct Hin as (p' & Heq & Hin).
  inversion Heq; subst. apply filter_In in Hin. destruct Hin as [Hin Hid].
  apply Z.eqb_eq in Hid. now split.
Qed.

(** With unique player ids and no orphan, each join row meets one player. *)
Lemma join_one_each (ps : list Player) (l : list PlayerGame) :
  NoDup (map player_id ps) ->
  (forall pg, In pg l -> In (pg_playerID pg) (map player_id ps)) ->
  map fst (flat_map
             (fun pg => map (pair pg) (keep (has_player_id (pg_playerID pg)) ps)) l)
  = l.
Proof.
  intros Hnd. induction l as [|pg l IH]; intros Hall; cbn [flat_map]; [reflexivity|].
  rewrite map_app, IH by (intros pg' H'; apply Hall; now right).
  destruct (proj1 (in_map_iff _ _ _) (Hall pg (or_introl eq_refl))) as (p & Hp & Hin).
  destruct (keep_key player_id (pg_playerID pg) ps p Hnd Hin Hp) as (_ & _ & _ & Hk & _).
  unfold has_player_id. now rewrite Hk.
Qed.

Lemma ascending_ext {A : Type} (key key' : A -> Z) (l : list A) :
  Forall (fun x => key' x = key x) l -> ascending key l -> ascending key' l.
Proof.
  unfold ascending. intros Hall Hs. induction Hs as [|x l Hs IH Hhd]; [constructor|].
  inversion Hall as [|? ? Hx Hl]; subst. constructor; [now apply IH|].
  destruct Hhd as [|y l' Hxy]; constructor.
  inversion Hl; subst. lia.
Qed.

Lemma no_participants (s : Store) (g : Z) :
  no_orphans s -> ~ In g (game_ids s) -> keep (of_game g) (playerGames s) = [].
Proof.
  rewrite no_orphans_spec. intros H Hg. apply keep_nil_iff. intros pg Hpg.
  apply Z.eqb_neq. intros Heq. apply Hg. rewrite <- Heq. now apply H.
Qed.

(** C3: GET /games/:id, for a path parameter that reads as the identifier
    [g], on a store that answers the query, keeps its primary keys and has
    no orphans.  The handler sends, with status 200, one entry per
    PlayerGame row of game [g]: an object with the id, name and email of the
    row's player and the row's score, in ascending order of player id.
    Where game [g] has no PlayerGame row, and so too where there is no game
    [g], what is sent is the empty array, still with status 200. *)
Theorem readGamePlayers_entries (E : Engine) (request : Request) (w : World) (g : Z) :
  int4in E (id (params request)) = Some g ->
  next_fault w = None ->
  primary_keys (store w) ->
  no_orphans (store w) ->
  exists entries : list (PlayerGame * Player),
    readGamePlayers (service E) request w
      = (Resolved (Send (JArray
           (map (fun x => JObject [("id", JNumber (player_id (snd x)));
                                   ("name", JString (player_name (snd x)));
                                   ("email", JString (player_email (snd x)));
                                   ("score", JNumber (pg_score (fst x)))])
                entries))),
         sent (SelectGamePlayers (id (params request))) w)
    /\ answers (fst (readGamePlayers (service E) request w)) 200
         (Content (JArray
           (map (fun x => JObject [("id", JNumber (player_id (snd x)));
                                   ("name", JString (player_name (snd x)));
                                   ("email", JString (player_email (snd x)));
                                   ("score", JNumber (pg_score (fst x)))])
                entries)))
    /\ Permutation (map fst entries) (keep (of_game g) (playerGames (store w)))
    /\ Forall (fun x => In (snd x) (players (store w))
                        /\ player_id (snd x) = pg_playerID (fst x)) entries
    /\ ascending (fun x => player_id (snd x)) entries
    /\ (keep (of_game g) (playerGames (store w)) = [] -> entries = [])
    /\ (~ In g (game_ids (store w)) -> entries = []).
Proof.
  intros Hid Hf Hpk Hno.
  set (key := fun x : PlayerGame * Player => pg_playerID (fst x)).
  exists (sort_by key (join_players (store w) g)).
  assert (Hperm := sort_by_perm key (join_players (store w) g)).
  assert (Hall : Forall (fun x => In (snd x) (players (store w))
                     /\ player_id (snd x) = pg_playerID (fst x))
                   (sort_by key (join_players (store w) g))).
  { apply (Permutation_Forall (Permutation_sym Hperm)). apply join_joined. }
  assert (Hempty : keep (of_game g) (playerGames (store w)) = [] ->
                   sort_by key (join_players (store w) g) = []).
  { intros Hk. unfold join_players. now rewrite Hk. }
  assert (Hsend : readGamePlayers (service E) request w
      = (Resolved (Send (JArray
           (map (fun x => JObject [("id", JNumber (player_id (snd x)));
                                   ("name", JString (player_name (snd x)));
                                   ("email", JString (player_email (snd x)));
                                   ("score", JNumber (pg_score (fst x)))])
                (sort_by key (join_players (store w) g))))),
         sent (SelectGamePlayers (id (params request))) w)).
  { unfold readGamePlayers. rewrite then_send_catch_next.
    cbn [service pgp root manyOrNone pgp_queries].
    rewrite query_postgres, Hf. cbn [exec]. unfold with_id. rewrite Hid. reflexivity. }
  split; [exact Hsend|].
  split; [|split; [|split; [assumption|split; [|split]]]].
  - rewrite Hsend. eexists. split; [reflexivity|]. now split.
  - rewrite (Permutation_map fst Hperm). unfold join_players.
    rewrite join_one_each; [reflexivity | now apply primary_keys_players |].
    intros pg Hpg. apply filter_In in Hpg. destruct Hpg as [Hpg _].
    now apply (proj1 (no_orphans_spec _) Hno).
  - apply (ascending_ext key); [|apply sort_by_ascending].
    apply (Forall_impl _ (P := fun x => In (snd x) (players (store w))
                                 /\ player_id (snd x) = pg_playerID (fst x)));
      [intros x [_ Hx]; exact Hx | assumption].
  - assumption.
  - intros Hg. apply Hempty. now apply no_participants.
Qed.

(** ** The service on the sample store *)

Example delete_player_2 :
  respond strict DELETE_players_id (request_for "2") (world_of sample_store [])
    = Resolved (Send (id_row 2))
  /\ playerGames (store (serve strict DELETE_players_id (request_for "2")
                           (world_of sample_store [])))
     = [mkPlayerGame 10 3 300; mkPlayerGame 10 1 100].
Proof. split; reflexivity. Qed.

Example game_10_players :
  respond strict GET_games_id (request_for "10") (world_of sample_store [])
    = Resolved (Send (JArray
        [JObject [("id", JNumber 1); ("name", JString "Ann");
                  ("email", JString "ann@x.com"); ("score", JNumber 100)];
         JObject [("id", JNumber 2); ("name", JString "Bo");
                  ("email", JString "bo@x.com"); ("score", JNumber 200)];
         JObject [("id", JNumber 3); ("name", JString "Cy");
                  ("email", JString "cy@x.com"); ("score", JNumber 300)]])).
Proof. reflexivity. Qed.

Example games_in_order :
  respond strict GET_games (request_for "") (world_of sample_store [])
    = Resolved (Send (JArray [game_row (mkGame 10); game_row (mkGame 20)])).
Proof. reflexivity. Qed.

Example decimal_reads :
  decimal " 3" = Some 3 /\ decimal "-1" = Some (-1) /\ decimal "+3 " = Some 3
  /\ decimal "3x" = None /\ decimal "" = None /\ decimal "2147483648" = None.
Proof. repeat split. Qed.

(** A path parameter that is no integer is a store error, hence a 500. *)
Example malformed_id :
  respond strict GET_players_id (request_for "abc") (world_of sample_store [])
    = Resolved internal_server_error.
Proof. reflexivity. Qed.

(** Why the join rows go first: with the foreign keys declared the parent
    delete alone is refused, without them it leaves orphans. *)
Example parent_first :
  fst (exec strict (DeletePlayerById (mkParams "2")) sample_store)
    = Failed foreign_key_violation
  /\ ~ no_orphans (snd (exec lax (DeletePlayerById (mkParams "2")) sample_store)).
Proof. split; [reflexivity | discriminate]. Qed.

(** After PUT /players/3 the unordered listing meets player 3 last. *)
Example updated_row_is_listed_last :
  player_ids sample_store = [1; 3; 2]
  /\ player_ids (store (serve strict PUT_players_id rename_cy (world_of sample_store [])))
     = [1; 2; 3].
Proof. split; reflexivity. Qed.

Example sample_store_consistent : consistent sample_store.
Proof. repeat split. Qed.

Lemma deletes_leave_no_orphans_witness :
  let w := world_of sample_store [] in
  let w' := serve lax (delete_route ThePlayer) (request_for "2") w in
  trace w' = [EvBegin; EvQuery (DeletePlayerGameByPlayer (mkParams "2"));
              EvQuery (DeletePlayerById (mkParams "2")); EvCommit]
  /\ ~ In (mkPlayerGame 20 2 50) (playerGames (store w'))
  /\ In (mkPlayerGame 10 3 300) (playerGames (store w'))
  /\ ~ In 2 (player_ids (store w'))
  /\ In 3 (player_ids (store w'))
  /\ no_orphans (store w')
  /\ no_orphans (store (run lax [(DELETE_games_id, request_for "10"); (POST_players, di)] w')).
Proof.
  destruct (deletes_leave_no_orphans lax ThePlayer (request_for "2")
              [(DELETE_games_id, request_for "10"); (POST_players, di)]
              (world_of sample_store []))
    as (_ & _ & Hdone & Hno).
  destruct (Hdone 2 eq_refl eq_refl eq_refl eq_refl) as (Htrace & Hpg & Hpar & _).
  destruct (Hno eq_refl) as [Hno1 Hno2].
  split; [exact Htrace|]. split; [|split; [|split; [|split; [|split]]]].
  - intros Hin. apply Hpg in Hin. destruct Hin as [_ Hne]. now apply Hne.
  - apply Hpg. split; [cbn; auto | discriminate].
  - intros Hin. apply Hpar in Hin. destruct Hin as [_ Hne]. now apply Hne.
  - apply Hpar. split; [cbn; auto | discriminate].
  - exact Hno1.
  - exact Hno2.
Defined.

Lemma delete_absent_parent_commits_witness :
  let w := world_of stale_store [] in
  ~ In 7 (parent_ids ThePlayer (store w))
  /\ respond lax (delete_route ThePlayer) (request_for "7") w = Resolved (SendStatus 404)
  /\ answers (respond lax (delete_route ThePlayer) (request_for "7") w) 404
       (Content (JString "Not Found"))
  /\ store (serve lax (delete_route ThePlayer) (request_for "7") w) = sample_store.
Proof.
  assert (Hnone : ~ In 7 (parent_ids ThePlayer (store (world_of stale_store [])))).
  { cbn. intros [H|[H|[H|[]]]]; discriminate. }
  split; [exact Hnone|].
  pose proof (delete_absent_parent_commits lax ThePlayer (request_for "7")
                (world_of stale_store []) 7 eq_refl eq_refl eq_refl Hnone)
    as (Hresp & Hbody & Hstore & _).
  split; [exact Hresp | split; [exact Hbody | exact Hstore]].
Defined.

(** The 404 of a delete whose parent is absent has a body. *)
Lemma delete_absent_parent_body_not_empty :
  ~ In 7 (parent_ids ThePlayer stale_store)
  /\ answers (respond lax (delete_route ThePlayer) (request_for "7")
               (world_of stale_store []))
       404 (Content (JString "Not Found"))
  /\ ~ answers (respond lax (delete_route ThePlayer) (request_for "7")
                  (world_of stale_store []))
         404 NoBody.
Proof.
  split; [cbn; intros [H|[H|[H|[]]]]; discriminate|]. split.
  - exists (SendStatus 404). now repeat split.
  - not_that_answer.
Qed.


Lemma readGamePlayers_entries_witness :
  let w := world_of sample_store [] in
  exists entries : list (PlayerGame * Player),
    fst (readGamePlayers (service strict) (request_for "10") w)
      = Resolved (Send (JArray
          (map (fun x => JObject [("id", JNumber (player_id (snd x)));
                                  ("name", JString (player_name (snd x)));
                                  ("email", JString (player_email (snd x)));
                                  ("score", JNumber (pg_score (fst x)))])
               entries)))
    /\ Permutation (map fst entries)
         [mkPlayerGame 10 3 300; mkPlayerGame 10 1 100; mkPlayerGame 10 2 200]
    /\ Forall (fun x => In (snd x) (players sample_store)
                        /\ player_id (snd x) = pg_playerID (fst x)) entries
    /\ ascending (fun x => player_id (snd x)) entries.
Proof.
  destruct (readGamePlayers_entries strict (request_for "10")
              (world_of sample_store []) 10 eq_refl eq_refl eq_refl eq_refl)
    as (entries & Hsend & _ & Hperm & Hall & Hasc & _).
  exists entries. split; [now rewrite Hsend|]. split; [exact Hperm|].
  split; assumption.
Defined.

Lemma readPlayer_row_or_404_witness :
  let w := world_of sample_store [] in
  (exists props,
     fst (readPlayer (service strict) (request_for "3") w)
       = Resolved (Send (JObject props))
     /\ Permutation props [("id", JNumber 3); ("name", JString "Cy");
                           ("email", JString "cy@x.com")])
  /\ fst (readPlayer (service strict) (request_for "7") w) = Resolved (SendStatus 404)
  /\ answers (fst (readPlayer (service strict) (request_for "7") w)) 404
       (Content (JString "Not Found")).
Proof.
  split.
  - destruct (proj1 (readPlayer_row_or_404 strict (request_for "3")
                       (world_of sample_store []) 3 eq_refl eq_refl eq_refl)
                (mkPlayer 3 "Cy" "cy@x.com"))
      as (props & Hsend & Hperm); [cbn; auto | reflexivity|].
    exists props. split; [now rewrite Hsend | exact Hperm].
  - destruct (proj2 (readPlayer_row_or_404 strict (request_for "7")
                       (world_of sample_store []) 7 eq_refl eq_refl eq_refl))
      as (_ & H & Hbody & _).
    + cbn. intros p [<-|[<-|[<-|[]]]]; discriminate.
    + split; [now rewrite H | exact Hbody].
Defined.

(** The 404 of GET /players/:id has a body. *)
Lemma readPlayer_absent_body_not_empty :
  (forall p, In p (players sample_store) -> player_id p <> 7)
  /\ answers (respond strict GET_players_id (request_for "7") (world_of sample_store []))
       404 (Content (JString "Not Found"))
  /\ ~ answers (respond strict GET_players_id (request_for "7")
                  (world_of sample_store []))
         404 NoBody.
Proof.
  split; [cbn; intros p [<-|[<-|[<-|[]]]]; discriminate|]. split.
  - exists (SendStatus 404). now repeat split.
  - not_that_answer.
Qed.

Lemma updatePlayer_frame_witness :
  let w := world_of sample_store [] in
  let w' := snd (updatePlayer_raw (service strict) rename_cy_raw w) in
  fst (updatePlayer_raw (service strict) rename_cy_raw w)
    = Resolved (Send (JObject [("id", JNumber 3)]))
  /\ (exists l1 l2,
        players sample_store = l1 ++ mkPlayer 3 "Cy" "cy@x.com" :: l2
        /\ Permutation (players (store w')) (mkPlayer 3 "Cyrus" "cy@y.org" :: l1 ++ l2))
  /\ games (store w') = games sample_store
  /\ playerGames (store w') = playerGames sample_store.
Proof.
  destruct (updatePlayer_frame strict rename_cy_raw (mkPlayerInput "cy@y.org" "Cyrus")
              (world_of sample_store []) 3 eq_refl eq_refl eq_refl eq_refl)
    as (Hg & Hpg & _ & Hhit & _).
  destruct (Hhit (mkPlayer 3 "Cy" "cy@x.com")) as [Hresp Hrows];
    [cbn; auto | reflexivity|].
  split; [exact Hresp | split; [exact Hrows | split; [exact Hg | exact Hpg]]].
Defined.

(** A PUT whose body lacks the email, for an identifier no row has: the
    answer is the 500 response, not 404, and no query is made. *)
Lemma updatePlayer_missing_property_is_500 :
  (forall p, In p (players sample_store) -> player_id p <> 7)
  /\ fst (updatePlayer_raw (service strict) put_without_email (world_of sample_store []))
     = Resolved internal_server_error
  /\ fst (updatePlayer_raw (service strict) put_without_email (world_of sample_store []))
     <> Resolved (SendStatus 404)
  /\ trace (snd (updatePlayer_raw (service strict) put_without_email
                   (world_of sample_store []))) = [].
Proof.
  split; [cbn; intros p [<-|[<-|[<-|[]]]]; discriminate|].
  split; [reflexivity|]. split; [discriminate | reflexivity].
Qed.


Lemma createPlayer_inserts_witness :
  let w := world_of sample_store [] in
  seq_ahead (store w)
  /\ player_seq (store w) < int4_max
  /\ fst (createPlayer (service strict) di w)
     = Resolved (Send (JObject [("id", JNumber 4)]))
  /\ Permutation (players (store (snd (createPlayer (service strict) di w))))
       (mkPlayer 4 "Di" "di@x.com" :: players sample_store)
  /\ ~ In 4 (player_ids sample_store).
Proof.
  split; [reflexivity|]. split; [reflexivity|].
  destruct (createPlayer_inserts strict di (world_of sample_store [])
              eq_refl eq_refl eq_refl)
    as (Hresp & Hrows & _ & _ & _ & _ & Hnew).
  split; [exact Hresp | split; [exact Hrows | exact Hnew]].
Defined.

Lemma nullish_result_is_404_witness :
  fst (router (service strict) GET_players_id (request_for "7") (world_of sample_store []))
    = Resolved (SendStatus 404)
  /\ answers (fst (router void_db DELETE_games_id (request_for "10")
                     (world_of sample_store [])))
       404 (Content (JString "Not Found"))
  /\ fst (router (service strict) PUT_players_id rename_cy (world_of sample_store []))
    = Resolved (Send (id_row 3)).
Proof.
  split; [|split].
  - destruct (proj1 (nullish_result_is_404 (service strict) GET_players_id
                       (request_for "7") _ (world_of sample_store []) _ JNull
                       eq_refl eq_refl) (or_introl eq_refl)) as [H _].
    now rewrite H.
  - exact (proj2 (proj1 (nullish_result_is_404 void_db DELETE_games_id
                           (request_for "10") _ (world_of sample_store []) _ JUndefined
                           eq_refl eq_refl) (or_intror eq_refl))).
  - rewrite (proj1 (proj2 (nullish_result_is_404 (service strict) PUT_players_id
                             rename_cy _ (world_of sample_store []) _ (id_row 3)
                             eq_refl eq_refl)
                      ltac:(discriminate) ltac:(discriminate))).
    reflexivity.
Defined.

(** The 404 that follows a null or an undefined result has a body. *)
Lemma nullish_404_body_not_empty :
  fst (oneOrNone (service strict) (SelectPlayerById (mkParams "7"))
         (world_of sample_store [])) = Resolved JNull
  /\ ~ answers (fst (router (service strict) GET_players_id (request_for "7")
                       (world_of sample_store [])))
         404 NoBody
  /\ fst (oneOrNone void_db (SelectPlayerById (mkParams "7"))
            (world_of sample_store [])) = Resolved JUndefined
  /\ ~ answers (fst (router void_db GET_players_id (request_for "7")
                       (world_of sample_store [])))
         404 NoBody.
Proof.
  split; [reflexivity|]. split; [not_that_answer|].
  split; [reflexivity | not_that_answer].
Qed.

(** * Further properties of the handlers *)

(** ** Every route, over any data access layer *)

(** X1: whatever the data access layer does, every handler settles with a
    response (its promise never stays rejected), the status is 200, 404 or
    500, and 404 can only come from the four handlers that go through
    [returnDataOr404]. *)
Theorem every_request_answered (db : Database) (r : Route) (request : Request)
    (w : World) :
  exists (resp : Response) (w' : World),
    router db r request w = (Resolved resp, w')
    /\ (status resp = 200 \/ status resp = 404 \/ status resp = 500)
    /\ (status resp = 404 -> data_access db r request <> None).
Proof.
  destruct r; cbn [router data_access];
    unfold readHello, readPlayers, readPlayer, updatePlayer, createPlayer,
           deletePlayer, readGames, readGamePlayers, deleteGame;
    try rewrite then_send_catch_next; try rewrite then_404_catch_next;
    try (unfold send, resolve; do 2 eexists; split; [reflexivity|];
         split; [now left | discriminate]);
    match goal with
    | |- context [match ?p w with _ => _ end] =>
        destruct (p w) as [[data|e] w1]
    end;
    try (destruct (loose_eq_null data));
    do 2 eexists; (split; [reflexivity|]); cbn [status];
    (split; [auto | try discriminate; intros _; discriminate]).
Qed.


(** ** The handlers that send one statement *)

Lemma expectation_failed (r : Route) (e : Error) : expectation r (Failed e) = Rejected e.
Proof. now destruct r. Qed.

Lemma single_statement (E : Engine) (r : Route) (request : Request) (q : Sql)
    (w : World) :
  statement_of r request = Some q ->
  router (service E) r request w
  = match next_fault w with
    | Some e => errorHandler e (sent q w)
    | None =>
        match expectation r (fst (exec E q (store w))) with
        | Resolved data =>
            (Resolved (answer r data), with_store (snd (exec E q (store w))) (sent q w))
        | Rejected e =>
            errorHandler e (with_store (snd (exec E q (store w))) (sent q w))
        end
    end.
Proof.
  intros Hq.
  destruct r; cbn [statement_of] in Hq; try discriminate; inversion Hq; subst q;
    cbn [router expectation answer];
    unfold readPlayers, readPlayer, updatePlayer, createPlayer, readGames,
           readGamePlayers;
    try rewrite then_send_catch_next; try rewrite then_404_catch_next;
    cbn [service pgp root one oneOrNone manyOrNone pgp_queries];
    rewrite query_postgres;
    (destruct (next_fault w); [reflexivity|]);
    match goal with
    | |- context [?f (fst (exec E ?q (store w)))] =>
        destruct (f (fst (exec E q (store w))))
    end; reflexivity.
Qed.

Lemma exec_select (E : Engine) (q : Sql) (s : Store) :
  match q with
  | SelectPlayers | SelectPlayerById _ | SelectGames | SelectGamePlayers _ => True
  | _ => False
  end ->
  snd (exec E q s) = s.
Proof.
  destruct q; intros H; try contradiction; cbn [exec]; unfold with_id;
    try reflexivity;
    match goal with |- context [int4in E ?t] => now destruct (int4in E t) end.
Qed.

(** X3: a GET never changes the store: not the tables, not the sequence,
    whatever the path parameter and whether or not the store answers. *)
Theorem reads_keep_store (E : Engine) (r : Route) (request : Request) (w : World) :
  is_get r = true -> store (serve E r request w) = store w.
Proof.
  intros Hr. unfold serve.
  destruct (statement_of r request) as [q|] eqn:Hq.
  - rewrite (single_statement _ _ _ _ _ Hq).
    assert (Hs : snd (exec E q (store w)) = store w).
    { apply exec_select. destruct r; try discriminate; inversion Hq; exact I. }
    rewrite Hs.
    destruct (next_fault w); [reflexivity|].
    destruct (expectation r _); reflexivity.
  - destruct r; try discriminate. reflexivity.
Qed.



(** ** The cascading deletes, further *)

Lemma without_dependents_none (k : Parent) (i : Z) (s : Store) :
  keep (refers k i) (playerGames s) = [] -> without_dependents k i s = s.
Proof.
  intros H. unfold without_dependents. rewrite (keep_nil_drop _ _ H). now destruct s.
Qed.

Lemma no_dependents (k : Parent) (i : Z) (s : Store) :
  no_orphans s -> ~ In i (parent_ids k s) -> keep (refers k i) (playerGames s) = [].
Proof.
  rewrite no_orphans_spec. intros H Hnin. apply keep_nil_iff. intros pg Hpg.
  destruct (H pg Hpg) as [Hp Hg].
  destruct k; cbn [refers parent_ids] in *; apply Z.eqb_neq; intros Heq;
    apply Hnin; now rewrite <- Heq.
Qed.

(** The faults left for the request after an answered cascade. *)
Lemma faults_after_cascade (n : nat) (ev : Event) (s : Store) (q1 q2 : Sql) (w : World) :
  fault_at n (log_event ev (with_store s (sent q2 (sent q1 (log_event EvBegin w)))))
  = fault_at (S (S n)) w.
Proof.
  unfold fault_at. cbn. destruct (faults w) as [|a [|b l]]; cbn;
    destruct n as [|[|n]]; reflexivity.
Qed.


(** X7: DELETE of a parent that does not exist, on a store without orphans
    that answers both statements: the answer is [sendStatus(404)] and the
    store is exactly what it was. *)
Theorem delete_absent_parent_noop (E : Engine) (k : Parent) (request : Request)
    (w : World) (i : Z) :
  int4in E (id (params request)) = Some i ->
  fault_at 0 w = None ->
  fault_at 1 w = None ->
  no_orphans (store w) ->
  ~ In i (parent_ids k (store w)) ->
  respond E (delete_route k) request w = Resolved (SendStatus 404)
  /\ store (serve E (delete_route k) request w) = store w.
Proof.
  intros Hid Hf0 Hf1 Hno Hnin. unfold respond, serve.
  rewrite (delete_answered _ _ _ _ _ Hid Hf0 Hf1), (hits_none _ _ _ Hnin).
  cbn [fst snd store log_event with_store]. split; [reflexivity|].
  rewrite (without_dependents_none _ _ _ (no_dependents _ _ _ Hno Hnin)).
  apply without_parent_none. now apply hits_none.
Qed.

(** X8: the same DELETE sent twice in a row, both times answered by the
    store: the second is answered [sendStatus(404)] and changes nothing. *)
Theorem delete_twice (E : Engine) (k : Parent) (request : Request) (w : World) (i : Z) :
  int4in E (id (params request)) = Some i ->
  primary_keys (store w) ->
  fault_at 0 w = None -> fault_at 1 w = None ->
  fault_at 2 w = None -> fault_at 3 w = None ->
  respond E (delete_route k) request (serve E (delete_route k) request w)
    = Resolved (SendStatus 404)
  /\ store (serve E (delete_route k) request (serve E (delete_route k) request w))
     = store (serve E (delete_route k) request w).
Proof.
  intros Hid Hpk Hf0 Hf1 Hf2 Hf3.
  rewrite (delete_committed _ _ _ _ _ Hid Hf0 Hf1 Hpk).
  set (s2 := without_parent k i (without_dependents k i (store w))).
  destruct (cascade_clears k i (store w)) as [Hnin Hnone]. fold s2 in Hnin, Hnone.
  unfold respond, serve. rewrite (delete_answered _ _ _ _ i Hid);
    try (rewrite faults_after_cascade; assumption).
  cbn [store log_event with_store]. rewrite (hits_none _ _ _ Hnin).
  cbn [fst snd store log_event with_store]. split; [reflexivity|].
  rewrite (without_dependents_none _ _ _ Hnone).
  apply without_parent_none. now apply hits_none.
Qed.

(** X9: GET /players/:id right after DELETE /players/:id for the same path
    parameter, both answered by the store: [sendStatus(404)], whether or
    not the player existed before. *)
Theorem delete_then_read_is_404 (E : Engine) (request : Request) (w : World) (i : Z) :
  int4in E (id (params request)) = Some i ->
  primary_keys (store w) ->
  fault_at 0 w = None -> fault_at 1 w = None -> fault_at 2 w = None ->
  respond E GET_players_id request (serve E DELETE_players_id request w)
    = Resolved (SendStatus 404).
Proof.
  intros Hid Hpk Hf0 Hf1 Hf2.
  change DELETE_players_id with (delete_route ThePlayer).
  rewrite (delete_committed _ _ _ _ _ Hid Hf0 Hf1 Hpk).
  unfold respond. rewrite (single_statement E GET_players_id request _ _ eq_refl).
  unfold next_fault. rewrite faults_after_cascade, Hf2.
  cbn [store log_event with_store exec]. unfold with_id. rewrite Hid.
  cbn [fst without_parent without_dependents players with_players with_playerGames].
  now rewrite keep_drop_nil.
Qed.


(** X11: right after an answered DELETE /players/:id, GET /games/:id for
    any game sends no entry of the deleted player. *)
Theorem delete_player_then_game (E : Engine) (request game : Request) (w : World)
    (i g : Z) :
  int4in E (id (params request)) = Some i ->
  int4in E (id (params game)) = Some g ->
  primary_keys (store w) ->
  fault_at 0 w = None -> fault_at 1 w = None -> fault_at 2 w = None ->
  exists entries : list (PlayerGame * Player),
    respond E GET_games_id game (serve E DELETE_players_id request w)
      = Resolved (Send (JArray (map score_row entries)))
    /\ Forall (fun x => player_id (snd x) <> i /\ pg_playerID (fst x) <> i) entries.
Proof.
  intros Hid Hg Hpk Hf0 Hf1 Hf2.
  change DELETE_players_id with (delete_route ThePlayer).
  rewrite (delete_committed _ _ _ _ _ Hid Hf0 Hf1 Hpk). unfold respond.
  set (s2 := without_parent ThePlayer i (without_dependents ThePlayer i (store w))).
  exists (sort_by (fun x => pg_playerID (fst x)) (join_players s2 g)). split.
  - rewrite (single_statement E GET_games_id game _ _ eq_refl).
    unfold next_fault. rewrite faults_after_cascade, Hf2.
    cbn [store log_event with_store exec]. unfold with_id. now rewrite Hg.
  - apply (Permutation_Forall (Permutation_sym (sort_by_perm _ _))).
    apply (Forall_impl _ (P := fun x => In (snd x) (players s2)
                                 /\ player_id (snd x) = pg_playerID (fst x)));
      [|apply join_joined].
    intros x [Hin Heq]. subst s2. cbn in Hin. apply in_drop in Hin.
    destruct Hin as [_ Hne]. apply Z.eqb_neq in Hne. split; congruence.
Qed.

(** ** Create and update, and what a read sees after them *)


Lemma store_single (E : Engine) (r : Route) (request : Request) (q : Sql) (w : World) :
  statement_of r request = Some q ->
  store (serve E r request w)
  = match next_fault w with
    | Some _ => store w
    | None => snd (exec E q (store w))
    end.
Proof.
  intros Hq. unfold serve. rewrite (single_statement _ _ _ _ _ Hq).
  destruct (next_fault w); [reflexivity|]. now destruct (expectation r _).
Qed.





Lemma drop_idem {A : Type} (f : A -> bool) (l : list A) :
  drop f (drop f l) = drop f l.
Proof.
  unfold drop. induction l as [|x l IH]; cbn [filter]; [reflexivity|].
  destruct (f x) eqn:Hx; cbn [negb filter]; [exact IH|].
  rewrite Hx. cbn [negb]. now rewrite IH.
Qed.

Lemma exec_update_twice (E : Engine) (p : Params) (b : PlayerInput) (s : Store) :
  snd (exec E (UpdatePlayerById p b) (snd (exec E (UpdatePlayerById p b) s)))
  = snd (exec E (UpdatePlayerById p b) s).
Proof.
  cbn [exec]. unfold with_id. destruct (int4in E (id p)) as [i|]; cbn [snd];
    [|reflexivity].
  unfold with_players. cbn [players games playerGames player_seq]. f_equal.
  assert (Hall : forall l : list Player,
            (forall x, In x l -> has_player_id i x = true) ->
            drop (has_player_id i) l = [] /\ keep (has_player_id i) l = l).
  { unfold drop, keep. induction l as [|x l IH]; cbn [filter]; intros Hl; [now split|].
    rewrite (Hl x (or_introl eq_refl)). cbn [negb].
    destruct IH as [IH1 IH2]; [intros y Hy; apply Hl; now right|].
    now rewrite IH1, IH2. }
  destruct (Hall (map (set_player b) (keep (has_player_id i) (players s))))
    as [Hd Hk].
  { intros x Hx. apply in_map_iff in Hx. destruct Hx as (y & <- & Hy).
    apply filter_In in Hy. exact (proj2 Hy). }
  rewrite drop_app, keep_app, Hd, Hk, keep_drop_nil, app_nil_r. cbn [app].
  f_equal.
  - apply drop_idem.
  - rewrite map_map. now apply map_ext.
Qed.

(** X15: PUT /players/:id is idempotent on the store: once the store has
    answered the first, sending the same request again changes nothing
    more, whether or not the second is answered. *)
Theorem update_idempotent (E : Engine) (request : Request) (w : World) :
  next_fault w = None ->
  store (serve E PUT_players_id request (serve E PUT_players_id request w))
  = store (serve E PUT_players_id request w).
Proof.
  intros Hf.
  rewrite (store_single E PUT_players_id request _ (serve E PUT_players_id request w)
             eq_refl).
  destruct (next_fault (serve E PUT_players_id request w)); [reflexivity|].
  rewrite (store_single E PUT_players_id request _ w eq_refl), Hf.
  apply exec_update_twice.
Qed.

(** X16: PUT /players/:id, whatever the path parameter, the body and the
    store's answer: the Player table keeps the identifiers it held, none
    added, none removed, none changed, and Game, PlayerGame and the
    sequence are untouched. *)
Theorem update_keeps_rows (E : Engine) (request : Request) (w : World) :
  Permutation (player_ids (store (serve E PUT_players_id request w)))
              (player_ids (store w))
  /\ games (store (serve E PUT_players_id request w)) = games (store w)
  /\ playerGames (store (serve E PUT_players_id request w)) = playerGames (store w)
  /\ player_seq (store (serve E PUT_players_id request w)) = player_seq (store w).
Proof.
  rewrite (store_single E PUT_players_id request _ w eq_refl).
  destruct (next_fault w); [now auto|].
  cbn [exec]. unfold with_id. destruct (int4in E _); cbn [snd]; [|now auto].
  unfold player_ids. cbn [players games playerGames player_seq with_players].
  split; [apply rewritten_ids | now auto].
Qed.


(** X18: in a cascading delete, when the delete of the PlayerGame rows
    fails, the delete of the parent row is never sent: the transaction is
    rolled back at once. *)
Theorem failed_first_skips_second (E : Engine) (k : Parent) (request : Request)
    (w : World) :
  statement_fails E (delete_dependents k (params request)) (store w) (fault_at 0 w)
    = true ->
  trace (serve E (delete_route k) request w)
    = trace w ++ [EvBegin; EvQuery (delete_dependents k (params request)); EvRollback]
  /\ faults (serve E (delete_route k) request w) = tl (faults w).
Proof.
  unfold serve, statement_fails. rewrite delete_tx. unfold next_fault.
  intros Hfail.
  assert (H : forall e,
            trace (snd (errorHandler e (log_event EvRollback
                     (sent (delete_dependents k (params request))
                        (log_event EvBegin w)))))
            = trace w ++ [EvBegin; EvQuery (delete_dependents k (params request));
                          EvRollback]
            /\ faults (snd (errorHandler e (log_event EvRollback
                     (sent (delete_dependents k (params request))
                        (log_event EvBegin w)))))
               = tl (faults w)).
  { intros e. cbn. now rewrite <- !app_assoc. }
  destruct (fault_at 0 w); [apply H|].
  destruct (exec E _ (store w)) as [[rows|e] s1]; [discriminate | apply H].
Qed.

(** ** Sequences of requests *)

Lemma drop_comm {A : Type} (f g : A -> bool) (l : list A) :
  drop f (drop g l) = drop g (drop f l).
Proof.
  unfold drop. induction l as [|x l IH]; cbn [filter]; [reflexivity|].
  destruct (g x) eqn:Hg, (f x) eqn:Hf; cbn [negb filter];
    rewrite ?Hg, ?Hf; cbn [negb]; now rewrite IH.
Qed.

(** X19: DELETE /players/:id and DELETE /games/:id, each answered by the
    store, leave the same store in either order. *)
Theorem deletes_commute (E : Engine) (rp rg : Request) (w : World) (i g : Z) :
  int4in E (id (params rp)) = Some i ->
  int4in E (id (params rg)) = Some g ->
  primary_keys (store w) ->
  fault_at 0 w = None -> fault_at 1 w = None ->
  fault_at 2 w = None -> fault_at 3 w = None ->
  store (serve E DELETE_games_id rg (serve E DELETE_players_id rp w))
  = store (serve E DELETE_players_id rp (serve E DELETE_games_id rg w)).
Proof.
  intros Hi Hg Hpk Hf0 Hf1 Hf2 Hf3.
  change DELETE_players_id with (delete_route ThePlayer).
  change DELETE_games_id with (delete_route TheGame).
  rewrite (delete_committed _ ThePlayer _ w _ Hi Hf0 Hf1 Hpk).
  rewrite (delete_committed _ TheGame _ w _ Hg Hf0 Hf1 Hpk).
  rewrite (delete_committed _ TheGame _ _ _ Hg);
    try (rewrite faults_after_cascade; assumption);
    [|now apply cascade_primary_keys].
  rewrite (delete_committed _ ThePlayer _ _ _ Hi);
    try (rewrite faults_after_cascade; assumption);
    [|now apply cascade_primary_keys].
  cbn [store log_event with_store without_parent without_dependents refers
       players games playerGames player_seq with_players with_games
       with_playerGames].
  unfold with_games, with_players, with_playerGames. cbn.
  f_equal. apply drop_comm.
Qed.

(** X20: a store with unique identifiers in Player and in Game, a sequence
    ahead of the player identifiers and no orphan PlayerGame row keeps all
    three along any sequence of requests, whatever the requests carry and
    whichever statements the store fails. *)
Theorem requests_keep_consistency (E : Engine) (calls : list (Route * Request))
    (w : World) :
  consistent (store w) -> consistent (store (run E calls w)).
Proof.
  revert w. induction calls as [|[r request] calls IH]; intros w Hw; cbn [run].
  - exact Hw.
  - apply IH. destruct Hw as (Hpk & Hseq & Hno).
    destruct (serve_store E r request w) as [-> | [(q & Hq & ->) | (k & i & ->)]].
    + now repeat split.
    + repeat split; [now apply exec_primary_keys | now apply exec_seq_ahead
                     | now apply exec_no_orphans].
    + repeat split; [now apply cascade_primary_keys | now apply cascade_seq_ahead
                     | now apply cascade_no_orphans].
Qed.

(** ** The further properties on the sample store *)


Lemma reads_keep_store_witness :
  store (serve strict GET_games_id (request_for "10") (world_of sample_store []))
    = sample_store.
Proof.
  exact (reads_keep_store strict GET_games_id (request_for "10")
           (world_of sample_store []) eq_refl).
Defined.



Lemma delete_absent_parent_noop_witness :
  ~ In 30 (parent_ids TheGame sample_store)
  /\ store (serve strict (delete_route TheGame) (request_for "30")
              (world_of sample_store []))
     = sample_store.
Proof.
  assert (Hnin : ~ In 30 (parent_ids TheGame (store (world_of sample_store [])))).
  { cbn. intros [H|[H|[]]]; discriminate. }
  split; [exact Hnin|].
  exact (proj2 (delete_absent_parent_noop strict TheGame (request_for "30")
                  (world_of sample_store []) 30 eq_refl eq_refl eq_refl eq_refl Hnin)).
Defined.

Lemma delete_twice_witness :
  respond strict (delete_route TheGame) (request_for "10")
    (serve strict (delete_route TheGame) (request_for "10") (world_of sample_store []))
  = Resolved (SendStatus 404).
Proof.
  exact (proj1 (delete_twice strict TheGame (request_for "10")
                  (world_of sample_store []) 10
                  eq_refl eq_refl eq_refl eq_refl eq_refl eq_refl)).
Defined.

Lemma delete_then_read_is_404_witness :
  respond strict GET_players_id (request_for "3")
    (serve strict DELETE_players_id (request_for "3") (world_of sample_store []))
  = Resolved (SendStatus 404).
Proof.
  exact (delete_then_read_is_404 strict (request_for "3") (world_of sample_store []) 3
           eq_refl eq_refl eq_refl eq_refl eq_refl).
Defined.


Lemma delete_player_then_game_witness :
  exists entries : list (PlayerGame * Player),
    respond strict GET_games_id (request_for "10")
      (serve strict DELETE_players_id (request_for "2") (world_of sample_store []))
    = Resolved (Send (JArray (map score_row entries)))
    /\ Forall (fun x => player_id (snd x) <> 2 /\ pg_playerID (fst x) <> 2) entries.
Proof.
  exact (delete_player_then_game strict (request_for "2") (request_for "10")
           (world_of sample_store []) 2 10
           eq_refl eq_refl eq_refl eq_refl eq_refl eq_refl).
Defined.



Lemma update_idempotent_witness :
  store (serve strict PUT_players_id rename_cy
           (serve strict PUT_players_id rename_cy (world_of sample_store [])))
  = store (serve strict PUT_players_id rename_cy (world_of sample_store [])).
Proof.
  exact (update_idempotent strict rename_cy (world_of sample_store []) eq_refl).
Defined.


Lemma failed_first_skips_second_witness :
  trace (serve strict (delete_route ThePlayer) (request_for "2")
           (world_of sample_store [Some outage]))
  = [EvBegin; EvQuery (DeletePlayerGameByPlayer (mkParams "2")); EvRollback].
Proof.
  exact (proj1 (failed_first_skips_second strict ThePlayer (request_for "2")
                  (world_of sample_store [Some outage]) eq_refl)).
Defined.

Lemma deletes_commute_witness :
  store (serve strict DELETE_games_id (request_for "10")
           (serve strict DELETE_players_id (request_for "2") (world_of sample_store [])))
  = store (serve strict DELETE_players_id (request_for "2")
             (serve strict DELETE_games_id (request_for "10") (world_of sample_store []))).
Proof.
  exact (deletes_commute strict (request_for "2") (request_for "10")
           (world_of sample_store []) 2 10
           eq_refl eq_refl eq_refl eq_refl eq_refl eq_refl eq_refl).
Defined.

Lemma requests_keep_consistency_witness :
  consistent
    (store (run strict [(POST_players, di); (DELETE_games_id, request_for "10");
                        (PUT_players_id, rename_cy); (DELETE_players_id, request_for "x")]
              (world_of sample_store [None; Some outage]))).
Proof.
  apply (requests_keep_consistency strict _ (world_of sample_store [None; Some outage])).
  repeat split.
Defined.
